(** * Distortion slider: the animation and input logic of [main.js]

    The script keeps a handful of module-level numbers (scroll position,
    momentum, distortion factor), mutates them from DOM event handlers and
    advances them once per displayed frame in [animate].  This development
    embeds that logic as pure functions on an explicit [State] record and
    proves the properties of the wrap-around layout, of the integrators and
    of the input handlers.

    ** Number model.  JavaScript numbers are IEEE-754 doubles.  Here they
    are exact rationals ([Q]): rounding, overflow, [NaN] and the infinities
    are outside the model.  All equalities between computed numbers are
    therefore stated with [==] ([Qeq]).  The library functions [Math.sqrt],
    [Math.sin], [Math.pow] and the constant [Math.PI] are not rational and
    are taken as parameters (class [MathLib]). *)

From Stdlib Require Import QArith Qabs Qminmax Qround Qpower.
From Stdlib Require Import ZArith List Bool String Lia Lqa.
Import ListNotations.

Open Scope Q_scope.

(** ** JavaScript arithmetic on rationals *)

Module JS.

(** [a < b] as a boolean test. *)
Definition ltb (a b : Q) : bool := negb (Qle_bool b a).

(** [Math.trunc]: round toward zero. *)
Definition trunc (q : Q) : Z :=
  if Qle_bool 0 q then Qfloor q else Qceiling q.

(** The remainder operator [a % n]: the result has the sign of the
    dividend, [a - n * trunc (a / n)]. *)
Definition rem (a n : Q) : Q := a - n * inject_Z (trunc (a / n)).

(** [Math.sign]. *)
Definition sign (q : Q) : Q :=
  match q ?= 0 with
  | Lt => -1
  | Eq => 0
  | Gt => 1
  end.

Definition abs : Q -> Q := Qabs.
Definition min : Q -> Q -> Q := Qmin.
Definition max : Q -> Q -> Q := Qmax.

End JS.

(** The parts of [Math] that have no rational counterpart. *)
Class MathLib : Type := {
  Math_sqrt : Q -> Q;
  Math_sin : Q -> Q;
  Math_pow : Q -> Q -> Q;
  Math_PI : Q
}.

(** ** Configuration (lines 19-37) *)

Record Settings : Type := {
  wheelSensitivity : Q;
  touchSensitivity : Q;
  momentumMultiplier : Q;
  smoothing : Q;
  slideLerp : Q;
  distortionDecay : Q;
  maxDistortion : Q;
  distortionSensitivity : Q;
  distortionSmoothing : Q
}.

Definition settings : Settings := {|
  wheelSensitivity := 0.01;
  touchSensitivity := 0.01;
  momentumMultiplier := 2;
  smoothing := 0.1;
  slideLerp := 0.075;
  distortionDecay := 0.95;
  maxDistortion := 2.5;
  distortionSensitivity := 0.15;
  distortionSmoothing := 0.075
|}.

Definition slideWidth : Q := 3.0.
Definition slideHeight : Q := 1.5.
Definition gap : Q := 0.1.
Definition slideCount : nat := 10.
Definition imagesCount : nat := 5.

(** A count or an array index used as a number. *)
Definition num (i : nat) : Q := inject_Z (Z.of_nat i).

Definition totalWidth : Q := num slideCount * (slideWidth + gap).
Definition slideUnit : Q := slideWidth + gap.

(** ** Slide layout (lines 285-290 of [animate]) *)

Definition wrapBaseX (i : nat) (currentPosition : Q) : Q :=
  let baseX := num i * slideUnit - currentPosition in
  let baseX := JS.rem (JS.rem baseX totalWidth + totalWidth) totalWidth in
  if JS.ltb (totalWidth / 2) baseX then baseX - totalWidth else baseX.

(** ** Data model *)

(** One entry of a position attribute: three consecutive floats of the
    flat buffer ([x] at [3i], [y] at [3i+1], [z] at [3i+2]). *)
Record Vertex : Type := mkVertex { vx : Q; vy : Q; vz : Q }.

(** A slide mesh: [mesh.position.x], the position attribute of its
    geometry and the [userData] fields the script attaches to it.  The
    material, the texture and [mesh.scale] (touched only by the texture
    loader callback) are not part of the animation logic and are left to
    the renderer. *)
Record Slide : Type := mkSlide {
  position_x : Q;
  geometry : list Vertex;
  index : nat;
  originalVertices : list Vertex;
  targetX : Q;
  currentX : Q
}.

(** The module-level variables of lines 39-52.  [lastTime] holds
    [undefined] after the bootstrap call [animate()]; it is only ever
    tested for truthiness and read when truthy, so [undefined] is
    represented by [0], which is falsy as well. *)
Record State : Type := mkState {
  slides : list Slide;
  currentPosition : Q;
  targetPosition : Q;
  isScrolling : bool;
  autoScrollSpeed : Q;
  lastTime : Q;
  touchStartX : Q;
  touchLastX : Q;
  prevPosition : Q;
  currentDistortionFactor : Q;
  targetDistortionFactor : Q;
  peakVelocity : Q;
  velocityHistory : list Q
}.

Definition set_targetPosition (v : Q) (st : State) : State :=
  mkState (slides st) (currentPosition st) v (isScrolling st)
    (autoScrollSpeed st) (lastTime st) (touchStartX st) (touchLastX st)
    (prevPosition st) (currentDistortionFactor st)
    (targetDistortionFactor st) (peakVelocity st) (velocityHistory st).

Definition set_isScrolling (v : bool) (st : State) : State :=
  mkState (slides st) (currentPosition st) (targetPosition st) v
    (autoScrollSpeed st) (lastTime st) (touchStartX st) (touchLastX st)
    (prevPosition st) (currentDistortionFactor st)
    (targetDistortionFactor st) (peakVelocity st) (velocityHistory st).

Definition set_autoScrollSpeed (v : Q) (st : State) : State :=
  mkState (slides st) (currentPosition st) (targetPosition st)
    (isScrolling st) v (lastTime st) (touchStartX st) (touchLastX st)
    (prevPosition st) (currentDistortionFactor st)
    (targetDistortionFactor st) (peakVelocity st) (velocityHistory st).

Definition set_touchStartX (v : Q) (st : State) : State :=
  mkState (slides st) (currentPosition st) (targetPosition st)
    (isScrolling st) (autoScrollSpeed st) (lastTime st) v (touchLastX st)
    (prevPosition st) (currentDistortionFactor st)
    (targetDistortionFactor st) (peakVelocity st) (velocityHistory st).

Definition set_touchLastX (v : Q) (st : State) : State :=
  mkState (slides st) (currentPosition st) (targetPosition st)
    (isScrolling st) (autoScrollSpeed st) (lastTime st) (touchStartX st) v
    (prevPosition st) (currentDistortionFactor st)
    (targetDistortionFactor st) (peakVelocity st) (velocityHistory st).

Definition set_targetDistortionFactor (v : Q) (st : State) : State :=
  mkState (slides st) (currentPosition st) (targetPosition st)
    (isScrolling st) (autoScrollSpeed st) (lastTime st) (touchStartX st)
    (touchLastX st) (prevPosition st) (currentDistortionFactor st)
    v (peakVelocity st) (velocityHistory st).

Definition set_currentPosition (v : Q) (st : State) : State :=
  mkState (slides st) v (targetPosition st)
    (isScrolling st) (autoScrollSpeed st) (lastTime st) (touchStartX st)
    (touchLastX st) (prevPosition st) (currentDistortionFactor st)
    (targetDistortionFactor st) (peakVelocity st) (velocityHistory st).

(** [Array.prototype.forEach((x, i) => ...)] rebuilding each element. *)
Fixpoint mapi_from {A B : Type} (f : nat -> A -> B) (i : nat) (l : list A)
  : list B :=
  match l with
  | [] => []
  | x :: xs => f i x :: mapi_from f (S i) xs
  end.

Definition mapi {A B : Type} (f : nat -> A -> B) (l : list A) : list B :=
  mapi_from f 0 l.

(** ** Slide creation (lines 59-132) *)

(** The vertex grid built by the renderer library for
    [new THREE.PlaneGeometry(width, height, widthSegments, heightSegments)]:
    rows from top to bottom, columns from left to right, all in the plane
    [z = 0]. *)
Definition PlaneGeometry (width height : Q) (widthSegments heightSegments : nat)
  : list Vertex :=
  let width_half := width / 2 in
  let height_half := height / 2 in
  let segment_width := width / num widthSegments in
  let segment_height := height / num heightSegments in
  flat_map (fun iy =>
    let y := num iy * segment_height - height_half in
    map (fun ix =>
      let x := num ix * segment_width - width_half in
      mkVertex x (- y) 0) (seq 0 (S widthSegments)))
    (seq 0 (S heightSegments)).

(** [createSlide(index)]: the mesh pushed onto [slides].  [targetX] and
    [currentX] do not exist yet on [userData]; the centring pass assigns
    them before anything reads them, the [0] here is never observed. *)
Definition createSlide (idx : nat) : Slide :=
  let geom := PlaneGeometry slideWidth slideHeight 32 16 in
  {| position_x := num idx * (slideWidth + gap);
     geometry := geom;
     index := idx;
     originalVertices := geom;
     targetX := 0;
     currentX := 0 |}.

(** The loop of lines 122-124. *)
Definition createSlides : list Slide := map createSlide (seq 0 slideCount).

(** The centring pass of lines 126-132. *)
Definition centreSlide (i : nat) (slide : Slide) : Slide :=
  let x := position_x slide - totalWidth / 2 in
  {| position_x := x;
     geometry := geometry slide;
     index := index slide;
     originalVertices := originalVertices slide;
     targetX := x;
     currentX := x |}.

(** The state once the module body has run up to line 132. *)
Definition initialState : State :=
  {| slides := mapi centreSlide createSlides;
     currentPosition := 0;
     targetPosition := 0;
     isScrolling := false;
     autoScrollSpeed := 0;
     lastTime := 0;
     touchStartX := 0;
     touchLastX := 0;
     prevPosition := 0;
     currentDistortionFactor := 0;
     targetDistortionFactor := 0;
     peakVelocity := 0;
     velocityHistory := [0; 0; 0; 0; 0] |}.

Section Program.

Context {M : MathLib}.

(** ** Mesh distortion (lines 134-159) *)

(** [positionAttribute.setZ(i, z)]. *)
Fixpoint setZ (pos : list Vertex) (i : nat) (z : Q) : list Vertex :=
  match pos, i with
  | [], _ => []
  | v :: vs, O => mkVertex (vx v) (vy v) z :: vs
  | v :: vs, S j => v :: setZ vs j z
  end.

(** [originalVertices[i * 3]] and [originalVertices[i * 3 + 1]].  The
    snapshot is a copy of the position buffer, so the index is in range
    for every [i < count]; see [mesh_wf]. *)
Definition originalAt (orig : list Vertex) (i : nat) : Vertex :=
  nth i orig (mkVertex 0 0 0).

(** The body of the vertex loop: the new Z of a vertex whose undeformed
    coordinates are [(x, y)]. *)
Definition curveZ (worldPositionX distortionFactor : Q) (x y : Q) : Q :=
  let distortionCenter_x := 0 in
  let distortionCenter_y := 0 in
  let distortionRadius := 2.0 in
  let maxCurvature := maxDistortion settings * distortionFactor in
  let vertexWorldPosX := worldPositionX + x in
  let distFromCenter :=
    Math_sqrt (Math_pow (vertexWorldPosX - distortionCenter_x) 2
               + Math_pow (y - distortionCenter_y) 2) in
  let distortionStrength := JS.max 0 (1 - distFromCenter / distortionRadius) in
  Math_pow (Math_sin (distortionStrength * Math_PI / 2)) 1.5 * maxCurvature.

Definition updateCurve (mesh : Slide) (worldPositionX distortionFactor : Q)
  : Slide :=
  let orig := originalVertices mesh in
  let count := List.length (geometry mesh) in
  let geom :=
    fold_left (fun pos i =>
      let x := vx (originalAt orig i) in
      let y := vy (originalAt orig i) in
      setZ pos i (curveZ worldPositionX distortionFactor x y))
      (seq 0 count) (geometry mesh) in
  {| position_x := position_x mesh;
     geometry := geom;
     index := index mesh;
     originalVertices := orig;
     targetX := targetX mesh;
     currentX := currentX mesh |}.

(** The snapshot has one entry per vertex of the live buffer. *)
Definition mesh_wf (mesh : Slide) : Prop :=
  List.length (originalVertices mesh) = List.length (geometry mesh).

(** ** Input handlers (lines 161-236) *)

Definition onKeydown (key : string) (st : State) : State :=
  if String.eqb key "ArrowLeft" then
    let st := set_targetPosition (targetPosition st + slideUnit) st in
    set_targetDistortionFactor
      (JS.min 1.0 (targetDistortionFactor st + 0.3)) st
  else if String.eqb key "ArrowRight" then
    let st := set_targetPosition (targetPosition st - slideUnit) st in
    set_targetDistortionFactor
      (JS.min 1.0 (targetDistortionFactor st + 0.3)) st
  else st.

Definition onWheel (deltaY : Q) (st : State) : State :=
  let wheelStrength := JS.abs deltaY * 0.001 in
  let st := set_targetDistortionFactor
              (JS.min 1.0 (targetDistortionFactor st + wheelStrength)) st in
  let st := set_targetPosition
              (targetPosition st - deltaY * wheelSensitivity settings) st in
  let st := set_isScrolling true st in
  set_autoScrollSpeed
    (JS.min (JS.abs deltaY * 0.0005) 0.05 * JS.sign deltaY) st.

Definition onTouchstart (clientX : Q) (st : State) : State :=
  let st := set_touchStartX clientX st in
  let st := set_touchLastX (touchStartX st) st in
  set_isScrolling false st.

Definition onTouchmove (clientX : Q) (st : State) : State :=
  let touchX := clientX in
  let deltaX := touchX - touchLastX st in
  let st := set_touchLastX touchX st in
  let touchStrength := JS.abs deltaX * 0.02 in
  let st := set_targetDistortionFactor
              (JS.min 1.0 (targetDistortionFactor st - touchStrength)) st in
  let st := set_targetPosition
              (targetPosition st - deltaX * touchSensitivity settings) st in
  set_isScrolling true st.

Definition onTouchend (st : State) : State :=
  let velocity := (touchLastX st - touchStartX st) * 0.005 in
  if JS.ltb 0.5 (JS.abs velocity) then
    let st := set_autoScrollSpeed
                (- velocity * momentumMultiplier settings * 0.05) st in
    let st := set_targetDistortionFactor
                (JS.min 1.0 (JS.abs velocity * 3
                             * distortionSensitivity settings)) st in
    set_isScrolling true st
  else st.

(** The callback of both timers (150 ms after a wheel event, 800 ms
    after a touch release). *)
Definition onScrollTimeout (st : State) : State := set_isScrolling false st.

(** ** The frame callback (lines 238-307) *)

(** Lines 245-254. *)
Definition scrollIntegrator (st : State) : State :=
  if isScrolling st then
    let st := set_targetPosition (targetPosition st + autoScrollSpeed st) st in
    let speedBasedDecay := 0.97 - JS.abs (autoScrollSpeed st) * 0.5 in
    let st := set_autoScrollSpeed
                (autoScrollSpeed st * JS.max 0.92 speedBasedDecay) st in
    if JS.ltb (JS.abs (autoScrollSpeed st)) 0.001 then
      set_autoScrollSpeed 0 st
    else st
  else st.

(** Line 256, with the smoothing factor it reads from [settings]. *)
Definition smoothPosition (k : Q) (st : State) : State :=
  set_currentPosition
    (currentPosition st + (targetPosition st - currentPosition st) * k) st.

(** Lines 258-282.  When two frames carry the same timestamp
    [deltaTime] is 0 and JavaScript divides to [Infinity] or [NaN]; the
    rational quotient is 0 there.  The quotient only feeds the distortion
    factors, and the range lemmas below hold for any value of it. *)
Definition distortionIntegrator (deltaTime prevPos : Q) (st : State) : State :=
  let currentVelocity := JS.abs (currentPosition st - prevPos) / deltaTime in
  let velocityHistory' := tl (velocityHistory st ++ [currentVelocity]) in
  let avgVelocity :=
    fold_left (fun sum val => sum + val) velocityHistory' 0
    / num (List.length velocityHistory') in
  let peakVelocity1 :=
    if JS.ltb (peakVelocity st) avgVelocity then avgVelocity
    else peakVelocity st in
  let velocityRatio := avgVelocity / (peakVelocity1 + 0.001) in
  let isDecelerating :=
    JS.ltb velocityRatio 0.7 && JS.ltb 0.5 peakVelocity1 in
  let peakVelocity' := peakVelocity1 * 0.99 in
  let movementDistortion := JS.min 1.0 (currentVelocity * 0.1) in
  let target1 :=
    if JS.ltb 0.05 currentVelocity
    then JS.max (targetDistortionFactor st) movementDistortion
    else targetDistortionFactor st in
  let target' :=
    if isDecelerating || JS.ltb avgVelocity 0.2 then
      let decayRate :=
        if isDecelerating then distortionDecay settings
        else distortionDecay settings * 0.9 in
      target1 * decayRate
    else target1 in
  let current' :=
    currentDistortionFactor st
    + (target' - currentDistortionFactor st) * distortionSmoothing settings in
  mkState (slides st) (currentPosition st) (targetPosition st)
    (isScrolling st) (autoScrollSpeed st) (lastTime st) (touchStartX st)
    (touchLastX st) (prevPosition st) current' target' peakVelocity'
    velocityHistory'.

(** Lines 285-303: the callback of [slides.forEach]. *)
Definition updateSlide (currentPosition distortion : Q) (i : nat)
  (slide : Slide) : Slide :=
  let baseX := wrapBaseX i currentPosition in
  let isWrapping :=
    JS.ltb (slideWidth * 2) (JS.abs (baseX - targetX slide)) in
  let currentX1 := if isWrapping then baseX else currentX slide in
  let targetX' := baseX in
  let currentX' := currentX1 + (targetX' - currentX1) * slideLerp settings in
  let slide :=
    {| position_x := position_x slide;
       geometry := geometry slide;
       index := index slide;
       originalVertices := originalVertices slide;
       targetX := targetX';
       currentX := currentX' |} in
  let wrapThreshold := totalWidth / 2 + slideWidth in
  if JS.ltb (JS.abs (currentX slide)) (wrapThreshold * 1.5) then
    let slide :=
      {| position_x := currentX slide;
         geometry := geometry slide;
         index := index slide;
         originalVertices := originalVertices slide;
         targetX := targetX slide;
         currentX := currentX slide |} in
    updateCurve slide (position_x slide) distortion
  else slide.

Definition layoutSlides (st : State) : State :=
  mkState
    (mapi (updateSlide (currentPosition st) (currentDistortionFactor st))
       (slides st))
    (currentPosition st) (targetPosition st)
    (isScrolling st) (autoScrollSpeed st) (lastTime st) (touchStartX st)
    (touchLastX st) (prevPosition st) (currentDistortionFactor st)
    (targetDistortionFactor st) (peakVelocity st) (velocityHistory st).

(** [animate(time)].  Scheduling the next frame and the final render
    call do not touch the state. *)
Definition animate (time : Q) (st : State) : State :=
  let deltaTime :=
    if Qeq_bool (lastTime st) 0 then 0.016
    else (time - lastTime st) / 1000 in
  let st :=
    mkState (slides st) (currentPosition st) (targetPosition st)
      (isScrolling st) (autoScrollSpeed st) time (touchStartX st)
      (touchLastX st) (prevPosition st) (currentDistortionFactor st)
      (targetDistortionFactor st) (peakVelocity st) (velocityHistory st) in
  let prevPos := currentPosition st in
  let st := scrollIntegrator st in
  let st := smoothPosition (smoothing settings) st in
  let st := distortionIntegrator deltaTime prevPos st in
  layoutSlides st.

(** ** The event loop *)

Inductive Event : Type :=
| Keydown (key : string)
| Wheel (deltaY : Q)
| Touchstart (clientX : Q)
| Touchmove (clientX : Q)
| Touchend
| Resize
| ScrollTimeout
| Frame (time : Q).

Definition step (st : State) (e : Event) : State :=
  match e with
  | Keydown key => onKeydown key st
  | Wheel deltaY => onWheel deltaY st
  | Touchstart x => onTouchstart x st
  | Touchmove x => onTouchmove x st
  | Touchend => onTouchend st
  | Resize => st
  | ScrollTimeout => onScrollTimeout st
  | Frame time => animate time st
  end.

Definition run (st : State) (es : list Event) : State := fold_left step es st.

(** Every state the page can be in: the slides are created and centred,
    then events arrive in any order (the bootstrap call [animate()] of
    line 309 is the first frame). *)
Inductive reachable : State -> Prop :=
| reachable_init : reachable initialState
| reachable_step st e : reachable st -> reachable (step st e).

End Program.

(** ** Notions used in the statements *)

Section Notions.

Context {M : MathLib}.

(** The state handed to the integrators: only [lastTime] is new. *)
Definition stamped (time : Q) (st : State) : State :=
  mkState (slides st) (currentPosition st) (targetPosition st)
    (isScrolling st) (autoScrollSpeed st) time (touchStartX st)
    (touchLastX st) (prevPosition st) (currentDistortionFactor st)
    (targetDistortionFactor st) (peakVelocity st) (velocityHistory st).

(** A vertex with its Z replaced. *)
Definition withZ (z : Q) (v : Vertex) : Vertex := mkVertex (vx v) (vy v) z.

(** The Z that [updateCurve] writes at index [j]. *)
Definition curveZ_at (mesh : Slide) (wx d : Q) (j : nat) : Q :=
  curveZ wx d (vx (originalAt (originalVertices mesh) j))
              (vy (originalAt (originalVertices mesh) j)).

(** The autoScrollSpeed after one decay step (lines 248-253). *)
Definition decayedSpeed (speed : Q) : Q :=
  let d := speed * Qmax 0.92 (0.97 - Qabs speed * 0.5) in
  if JS.ltb (Qabs d) 0.001 then 0 else d.

(** The error left between target and current position. *)
Definition positionError (st : State) : Q :=
  targetPosition st - currentPosition st.

(** Every slide sits within half the strip width of the centre. *)
Definition withinHalfWidth (st : State) : Prop :=
  Forall (fun s => Qabs (currentX s) <= totalWidth / 2) (slides st).

(** Both distortion factors are in [0, 1]. *)
Definition distortionInUnit (st : State) : Prop :=
  (0 <= targetDistortionFactor st /\ targetDistortionFactor st <= 1)
  /\ (0 <= currentDistortionFactor st /\ currentDistortionFactor st <= 1).

(** Both distortion factors are at most 1. *)
Definition distortionAtMostOne (st : State) : Prop :=
  targetDistortionFactor st <= 1 /\ currentDistortionFactor st <= 1.

(** The page after the bootstrap frame, one wheel notch and one more
    frame. *)
Definition afterWheel : State :=
  run initialState [Frame 0; Wheel 100; Frame 16].

End Notions.

(** A rational instance of [MathLib] for closed statements: two Newton
    steps for the square root, the cubic Taylor polynomial for the sine,
    and the two exponents the script passes to [Math.pow]. *)
Definition newton_sqrt (x : Q) : Q :=
  let next y := Qred ((y + x / y) / 2) in
  next (next 1).

Definition taylor_sin (x : Q) : Q := Qred (x - x * x * x / 6).

Definition rational_pow (x y : Q) : Q :=
  if Qeq_bool y 2 then Qred (x * x)
  else if Qeq_bool y 1.5 then Qred (x * newton_sqrt x)
  else 1.

Definition rationalMath : MathLib := {|
  Math_sqrt := newton_sqrt;
  Math_sin := taylor_sin;
  Math_pow := rational_pow;
  Math_PI := 3.14159
|}.

(** ** Notions used in the further properties *)




(** What the animation must leave alone on the slide at position [i] of
    [slides]: its index, its snapshot, the X and Y of every vertex, and
    the agreement of [mesh.position.x] with [userData.currentX]. *)
Definition slideIntact (i : nat) (s : Slide) : Prop :=
  index s = i
  /\ originalVertices s = PlaneGeometry slideWidth slideHeight 32 16
  /\ map vx (geometry s) = map vx (originalVertices s)
  /\ map vy (geometry s) = map vy (originalVertices s)
  /\ position_x s = currentX s.

(** The carousel at rest: nothing scrolls, the position has reached its
    target and the velocity window holds zeros only. *)
Definition atRest (st : State) : Prop :=
  isScrolling st = false
  /\ currentPosition st == targetPosition st
  /\ Forall (fun v => v == 0) (velocityHistory st).

(** Frame timestamps that give a non-zero [deltaTime]: each one differs
    from the truthy [lastTime] it is compared with. *)
Fixpoint ticking (last : Q) (times : list Q) : Prop :=
  match times with
  | [] => True
  | t :: rest => (last == 0 \/ ~ t == last) /\ ticking t rest
  end.

(** ** Texture callback (lines 84-113) *)

(** [mesh.scale.x] and [mesh.scale.y]. *)
Record Scale : Type := mkScale { scale_x : Q; scale_y : Q }.

(** The aspect-ratio correction of the load callback for an image of the
    given pixel size; both branches assign both components.  The material
    swap of lines 88-98 belongs to the renderer. *)
Definition onTextureLoaded (imageWidth imageHeight : Q) : Scale :=
  let imgAspect := imageWidth / imageHeight in
  let slideAspect := slideWidth / slideHeight in
  if JS.ltb slideAspect imgAspect then
    {| scale_x := slideHeight * imgAspect / slideWidth; scale_y := 1 |}
  else
    {| scale_x := 1; scale_y := slideWidth / imgAspect / slideHeight |}.

(** ** Image assignment (lines 73-80) *)

(** The five image paths, as written before [new URL] resolves them. *)
Definition imagePaths : list string :=
  [ "/src/assets/images/img1.jpg"; "/src/assets/images/img2.jpg";
    "/src/assets/images/img3.jpg"; "/src/assets/images/img4.jpg";
    "/src/assets/images/img5.jpg" ]%string.

(** [index % imagePaths.length]. *)
Definition imageIndex (idx : nat) : Q :=
  JS.rem (num idx) (num (List.length imagePaths)).

(** ** Sample values of the layout *)

Example wrapBaseX_0_0 : wrapBaseX 0 0 == 0.
Proof. vm_compute. reflexivity. Qed.

Example wrapBaseX_9_0 : wrapBaseX 9 0 == -3.1.
Proof. vm_compute. reflexivity. Qed.

Example wrapBaseX_5_0 : wrapBaseX 5 0 == 15.5.
Proof. vm_compute. reflexivity. Qed.

Example wrapBaseX_0_neg : wrapBaseX 0 100 == -7.
Proof. vm_compute. reflexivity. Qed.

(** ** Facts about the JavaScript operators *)

Section JSFacts.

Lemma ltb_true (a b : Q) : JS.ltb a b = true <-> a < b.
Proof.
  unfold JS.ltb. rewrite negb_true_iff.
  split; intro H.
  - apply Qnot_le_lt. intro Hle. apply Qle_bool_iff in Hle. congruence.
  - destruct (Qle_bool b a) eqn:E; [|reflexivity].
    apply Qle_bool_iff in E. exfalso. apply (Qlt_not_le _ _ H E).
Qed.

Lemma ltb_false (a b : Q) : JS.ltb a b = false <-> b <= a.
Proof.
  unfold JS.ltb. rewrite negb_false_iff. apply Qle_bool_iff.
Qed.

Lemma trunc_near (q : Q) :
  q - 1 < inject_Z (JS.trunc q) /\ inject_Z (JS.trunc q) < q + 1.
Proof.
  unfold JS.trunc. destruct (Qle_bool 0 q).
  - pose proof (Qfloor_le q) as H1. pose proof (Qlt_floor q) as H2.
    rewrite inject_Z_plus in H2. change (inject_Z 1%Z) with 1 in H2.
    split; lra.
  - pose proof (Qle_ceiling q) as H1. pose proof (Qceiling_lt q) as H2.
    unfold Z.sub in H2. rewrite inject_Z_plus, inject_Z_opp in H2.
    change (inject_Z 1%Z) with 1 in H2. split; lra.
Qed.

Lemma trunc_nonneg (q : Q) : 0 <= q -> inject_Z (JS.trunc q) <= q.
Proof.
  intro H. unfold JS.trunc.
  apply Qle_bool_iff in H. rewrite H. apply Qfloor_le.
Qed.

(** For a positive modulus the remainder is strictly inside (-n, n). *)
Lemma rem_range (a n : Q) : 0 < n -> - n < JS.rem a n /\ JS.rem a n < n.
Proof.
  intro Hn. unfold JS.rem.
  destruct (trunc_near (a / n)) as [H1 H2].
  assert (Ha : a == n * (a / n)) by (field; lra).
  set (t := inject_Z (JS.trunc (a / n))) in *.
  set (q := a / n) in *.
  split; nra.
Qed.

(** For a non-negative dividend it is in [0, n). *)
Lemma rem_nonneg (a n : Q) :
  0 < n -> 0 <= a -> 0 <= JS.rem a n /\ JS.rem a n < n.
Proof.
  intros Hn Ha0. unfold JS.rem.
  assert (Hq : 0 <= a / n).
  { apply Qle_shift_div_l; lra. }
  pose proof (trunc_nonneg _ Hq) as H0.
  destruct (trunc_near (a / n)) as [H1 H2].
  assert (Ha : a == n * (a / n)) by (field; lra).
  set (t := inject_Z (JS.trunc (a / n))) in *.
  set (q := a / n) in *.
  split; nra.
Qed.

Lemma totalWidth_val : totalWidth == 31.
Proof. reflexivity. Qed.

Lemma halfWidth_val : totalWidth / 2 == 15.5.
Proof. reflexivity. Qed.


(** The double remainder of line 286 lands in [0, totalWidth). *)
Lemma positive_mod_range (x : Q) :
  let r := JS.rem (JS.rem x totalWidth + totalWidth) totalWidth in
  0 <= r /\ r < totalWidth.
Proof.
  assert (HT : 0 < totalWidth) by (rewrite totalWidth_val; lra).
  destruct (rem_range x totalWidth HT) as [H1 H2].
  apply rem_nonneg; lra.
Qed.

End JSFacts.

(** ** Lists rebuilt by index *)

Section ListFacts.

Context {A B : Type}.

Lemma nth_error_mapi_from (f : nat -> A -> B) (l : list A) (a j : nat) :
  nth_error (mapi_from f a l) j = option_map (f (a + j)%nat) (nth_error l j).
Proof.
  revert a j. induction l as [|x xs IH]; intros a j.
  - destruct j; reflexivity.
  - destruct j as [|j]; simpl.
    + rewrite Nat.add_0_r. reflexivity.
    + rewrite IH. rewrite Nat.add_succ_r. reflexivity.
Qed.

Lemma nth_error_mapi (f : nat -> A -> B) (l : list A) (j : nat) :
  nth_error (mapi f l) j = option_map (f j) (nth_error l j).
Proof. unfold mapi. apply nth_error_mapi_from. Qed.

Lemma length_mapi_from (f : nat -> A -> B) (l : list A) (a : nat) :
  List.length (mapi_from f a l) = List.length l.
Proof.
  revert a. induction l as [|x xs IH]; intro a; simpl; [reflexivity|].
  now rewrite IH.
Qed.

Lemma length_mapi (f : nat -> A -> B) (l : list A) :
  List.length (mapi f l) = List.length l.
Proof. apply length_mapi_from. Qed.

(** A property that [f] establishes from a property of its argument, at
    every index, is established on the whole list. *)
Lemma Forall_mapi_from (P : A -> Prop) (Q' : B -> Prop)
  (f : nat -> A -> B) (l : list A) (a : nat) :
  (forall i x, P x -> Q' (f i x)) ->
  Forall P l -> Forall Q' (mapi_from f a l).
Proof.
  intros Hf Hl. revert a.
  induction Hl as [|x xs Hx Hxs IH]; intro a; simpl; constructor; auto.
Qed.

End ListFacts.

(** ** The phases of a frame *)

Section Phases.

Context {M : MathLib}.

Lemma animate_phases (time : Q) (st : State) :
  animate time st =
  layoutSlides
    (distortionIntegrator
       (if Qeq_bool (lastTime st) 0 then 0.016
        else (time - lastTime st) / 1000)
       (currentPosition st)
       (smoothPosition (smoothing settings)
          (scrollIntegrator (stamped time st)))).
Proof. reflexivity. Qed.

(** The scroll integrator writes [targetPosition] and
    [autoScrollSpeed] only. *)
Lemma scrollIntegrator_frame (st : State) :
  slides (scrollIntegrator st) = slides st
  /\ currentPosition (scrollIntegrator st) = currentPosition st
  /\ isScrolling (scrollIntegrator st) = isScrolling st
  /\ targetDistortionFactor (scrollIntegrator st) = targetDistortionFactor st
  /\ currentDistortionFactor (scrollIntegrator st)
     = currentDistortionFactor st.
Proof.
  unfold scrollIntegrator. destruct (isScrolling st) eqn:E.
  - cbv zeta. destruct (JS.ltb _ 0.001); cbn; rewrite ?E; repeat split.
  - rewrite E. repeat split.
Qed.

Lemma scrollIntegrator_stamped (time : Q) (st : State) :
  targetPosition (scrollIntegrator (stamped time st))
  = targetPosition (scrollIntegrator st)
  /\ autoScrollSpeed (scrollIntegrator (stamped time st))
     = autoScrollSpeed (scrollIntegrator st).
Proof.
  unfold scrollIntegrator, stamped. cbn [isScrolling].
  destruct (isScrolling st).
  - cbv zeta. cbn [autoScrollSpeed set_autoScrollSpeed set_targetPosition].
    destruct (JS.ltb _ 0.001); split; reflexivity.
  - split; reflexivity.
Qed.

End Phases.

(** ** The wrap-around layout *)

Section Layout.

Context {M : MathLib}.

(** [updateCurve] rewrites the geometry only. *)
Lemma updateCurve_fields (mesh : Slide) (wx d : Q) :
  position_x (updateCurve mesh wx d) = position_x mesh
  /\ index (updateCurve mesh wx d) = index mesh
  /\ originalVertices (updateCurve mesh wx d) = originalVertices mesh
  /\ targetX (updateCurve mesh wx d) = targetX mesh
  /\ currentX (updateCurve mesh wx d) = currentX mesh.
Proof. repeat split. Qed.

Ltac culling_cases :=
  unfold updateSlide; cbv zeta;
  cbn [currentX targetX position_x geometry index originalVertices];
  destruct (JS.ltb (JS.abs _) (_ * 1.5)).

Lemma updateSlide_targetX (cp d : Q) (i : nat) (s : Slide) :
  targetX (updateSlide cp d i s) = wrapBaseX i cp.
Proof. culling_cases; reflexivity. Qed.

Lemma updateSlide_currentX (cp d : Q) (i : nat) (s : Slide) :
  currentX (updateSlide cp d i s) =
  let baseX := wrapBaseX i cp in
  let c := if JS.ltb (slideWidth * 2) (JS.abs (baseX - targetX s))
           then baseX else currentX s in
  c + (baseX - c) * slideLerp settings.
Proof. culling_cases; reflexivity. Qed.

Lemma animate_slides (time : Q) (st : State) :
  slides (animate time st) =
  mapi (updateSlide (currentPosition (animate time st))
          (currentDistortionFactor (animate time st)))
       (slides st).
Proof.
  rewrite animate_phases. unfold layoutSlides at 1.
  cbn [slides layoutSlides currentPosition currentDistortionFactor].
  f_equal.
  unfold distortionIntegrator, smoothPosition, set_currentPosition.
  cbn [slides].
  destruct (scrollIntegrator_frame (stamped time st)) as (-> & _).
  reflexivity.
Qed.

Lemma wrapBaseX_range (i : nat) (cp : Q) :
  - (totalWidth / 2) < wrapBaseX i cp /\ wrapBaseX i cp <= totalWidth / 2.
Proof.
  unfold wrapBaseX. cbv zeta.
  destruct (positive_mod_range (num i * slideUnit - cp)) as [H0 H1].
  cbv zeta in H0, H1.
  set (r := JS.rem (JS.rem (num i * slideUnit - cp) totalWidth
                    + totalWidth) totalWidth) in *.
  clearbody r.
  pose proof totalWidth_val as HT. pose proof halfWidth_val as Hh.
  set (h := totalWidth / 2) in *. clearbody h.
  destruct (JS.ltb h r) eqn:E.
  - apply ltb_true in E. split; lra.
  - apply ltb_false in E. split; lra.
Qed.

(** C1.  For every slide index [i] (in particular 0..9) and every
    [currentPosition], the layout computation of a frame -- the double
    remainder by [totalWidth] followed by the subtraction of [totalWidth]
    when the result exceeds [totalWidth / 2] -- yields a value in the
    half-open interval (-totalWidth/2, totalWidth/2]. *)
Theorem wrapBaseX_half_open_interval (i : nat) (currentPosition : Q) :
  - (totalWidth / 2) < wrapBaseX i currentPosition
  /\ wrapBaseX i currentPosition <= totalWidth / 2.
Proof. apply wrapBaseX_range. Qed.


(** C2.  In any frame where the newly computed wrapped position of a
    slide differs from the slide's previous [targetX] by more than
    [2 * slideWidth], the slide leaves the frame with [targetX] equal to
    that wrapped position and [currentX] equal to [targetX]: the lerp
    step that follows the snap does not move it. *)
Theorem wrap_snap_currentX_is_targetX (time : Q) (st : State) (i : nat)
  (s : Slide) :
  nth_error (slides st) i = Some s ->
  slideWidth * 2
    < Qabs (wrapBaseX i (currentPosition (animate time st)) - targetX s) ->
  exists s',
    nth_error (slides (animate time st)) i = Some s'
    /\ targetX s' = wrapBaseX i (currentPosition (animate time st))
    /\ currentX s' == targetX s'.
Proof.
  intros Hs Hjump.
  rewrite animate_slides, nth_error_mapi, Hs. cbn [option_map].
  eexists. split; [reflexivity|].
  rewrite updateSlide_targetX, updateSlide_currentX. cbv zeta.
  apply ltb_true in Hjump. unfold JS.abs. rewrite Hjump.
  split; [reflexivity|]. ring.
Qed.

End Layout.

(** ** The curve update *)

Section Curve.

Context {M : MathLib}.

Lemma nth_error_setZ (pos : list Vertex) (i : nat) (z : Q) (j : nat) :
  nth_error (setZ pos i z) j =
  if Nat.eqb j i then option_map (withZ z) (nth_error pos j)
  else nth_error pos j.
Proof.
  revert i j. induction pos as [|v vs IH]; intros i j.
  - simpl. destruct (Nat.eqb j i), j; reflexivity.
  - destruct i as [|i], j as [|j]; simpl; try reflexivity.
    apply IH.
Qed.

(** The vertex loop, started at index [a] for [n] iterations. *)
Lemma nth_error_vertex_loop (f : nat -> Q) (n a : nat) (pos : list Vertex)
  (j : nat) :
  nth_error (fold_left (fun p i => setZ p i (f i)) (seq a n) pos) j =
  if Nat.leb a j && Nat.ltb j (a + n)
  then option_map (withZ (f j)) (nth_error pos j)
  else nth_error pos j.
Proof.
  revert a pos. induction n as [|n IH]; intros a pos.
  - simpl. rewrite Nat.add_0_r.
    destruct (Nat.leb_spec a j), (Nat.ltb_spec j a); simpl;
      try reflexivity; lia.
  - simpl. rewrite IH. rewrite nth_error_setZ.
    destruct (Nat.leb_spec (S a) j), (Nat.ltb_spec j (S a + n)),
      (Nat.leb_spec a j), (Nat.ltb_spec j (a + S n)),
      (Nat.eqb_spec j a); simpl; try reflexivity; try lia.
    subst j. destruct (nth_error pos a); reflexivity.
Qed.

(** Closed form of the loop: every vertex keeps [x] and [y] and gets the
    Z computed from the snapshot entry of the same index. *)
Lemma updateCurve_geometry (mesh : Slide) (wx d : Q) :
  geometry (updateCurve mesh wx d) =
  mapi (fun j v => withZ (curveZ_at mesh wx d j) v) (geometry mesh).
Proof.
  apply nth_error_ext. intro j.
  unfold updateCurve. cbn [geometry].
  rewrite (nth_error_vertex_loop
             (fun i => curveZ wx d (vx (originalAt (originalVertices mesh) i))
                                   (vy (originalAt (originalVertices mesh) i)))).
  rewrite nth_error_mapi. simpl.
  destruct (Nat.ltb_spec j (List.length (geometry mesh))) as [Hlt|Hge].
  - reflexivity.
  - apply nth_error_None in Hge. rewrite Hge. reflexivity.
Qed.

Lemma updateCurve_length (mesh : Slide) (wx d : Q) :
  List.length (geometry (updateCurve mesh wx d)) = List.length (geometry mesh).
Proof. rewrite updateCurve_geometry. apply length_mapi. Qed.

Lemma updateCurve_wf (mesh : Slide) (wx d : Q) :
  mesh_wf mesh -> mesh_wf (updateCurve mesh wx d).
Proof.
  unfold mesh_wf. intro H. rewrite updateCurve_length. exact H.
Qed.

Lemma curveZ_zero (wx x y : Q) : curveZ wx 0 x y == 0.
Proof. unfold curveZ. cbv zeta. ring. Qed.

Lemma mapi_from_withZ_idem (f : nat -> Q) (a : nat) (l : list Vertex) :
  mapi_from (fun j v => withZ (f j) v) a
    (mapi_from (fun j v => withZ (f j) v) a l) =
  mapi_from (fun j v => withZ (f j) v) a l.
Proof.
  revert a. induction l as [|v vs IH]; intro a; simpl; [reflexivity|].
  rewrite IH. reflexivity.
Qed.

Lemma map_vz_mapi_from (f : nat -> Q) (a : nat) (l : list Vertex) :
  map vz (mapi_from (fun j v => withZ (f j) v) a l) =
  map f (seq a (List.length l)).
Proof.
  revert a. induction l as [|v vs IH]; intro a; simpl; [reflexivity|].
  rewrite IH. reflexivity.
Qed.

(** C3.  For every mesh and every world X, [updateCurve] with distortion
    factor 0 leaves every vertex at Z = 0.  For any factor [d] the Z
    values written are the function [curveZ] of the snapshot entry, the
    world X and [d]: two meshes with the same snapshot get the same Z
    values whatever their geometry held before, and running the update
    again with the same arguments gives back the same mesh (nothing
    accumulates from frame to frame). *)
Theorem updateCurve_flat_at_zero_and_pure (mesh : Slide) (wx d : Q) :
  mesh_wf mesh ->
  Forall (fun v => vz v == 0) (geometry (updateCurve mesh wx 0))
  /\ map vz (geometry (updateCurve mesh wx d)) =
     map (fun o => curveZ wx d (vx o) (vy o)) (originalVertices mesh)
  /\ (forall mesh2, mesh_wf mesh2 ->
        originalVertices mesh2 = originalVertices mesh ->
        map vz (geometry (updateCurve mesh2 wx d)) =
        map vz (geometry (updateCurve mesh wx d)))
  /\ updateCurve (updateCurve mesh wx d) wx d = updateCurve mesh wx d.
Proof.
  intro Hwf.
  assert (Hz : forall m, mesh_wf m ->
            map vz (geometry (updateCurve m wx d)) =
            map (fun o => curveZ wx d (vx o) (vy o)) (originalVertices m)).
  { intros m Hm. rewrite updateCurve_geometry. unfold mapi.
    rewrite map_vz_mapi_from. unfold mesh_wf in Hm. rewrite <- Hm.
    apply nth_error_ext. intro j.
    rewrite nth_error_map, nth_error_map, nth_error_seq.
    destruct (Nat.ltb_spec j (List.length (originalVertices m))) as [Hlt|Hge].
    - unfold curveZ_at, originalAt. simpl.
      destruct (nth_error (originalVertices m) j) as [o|] eqn:E.
      + rewrite (nth_error_nth _ _ _ E). reflexivity.
      + apply nth_error_None in E. lia.
    - apply nth_error_None in Hge. rewrite Hge. reflexivity. }
  split; [|split; [|split]].
  - rewrite updateCurve_geometry. unfold mapi.
    apply (Forall_mapi_from (fun _ => True)).
    + intros i v _. apply curveZ_zero.
    + apply Forall_forall. trivial.
  - apply Hz, Hwf.
  - intros mesh2 Hwf2 Hsnap. rewrite (Hz mesh2 Hwf2), (Hz mesh Hwf), Hsnap.
    reflexivity.
  - assert (Hg : geometry (updateCurve (updateCurve mesh wx d) wx d)
                 = geometry (updateCurve mesh wx d)).
    { rewrite (updateCurve_geometry (updateCurve mesh wx d)).
      rewrite updateCurve_geometry. unfold mapi, curveZ_at.
      cbn [originalVertices updateCurve].
      apply mapi_from_withZ_idem. }
    assert (Heta : forall m, updateCurve m wx d =
              mkSlide (position_x m) (geometry (updateCurve m wx d))
                (index m) (originalVertices m) (targetX m) (currentX m))
      by reflexivity.
    rewrite (Heta (updateCurve mesh wx d)), Hg.
    destruct (updateCurve_fields mesh wx d) as (-> & -> & -> & -> & ->).
    symmetry. apply Heta.
Qed.

End Curve.

(** ** Input handlers *)

Section Handlers.

Lemma sign_pos (q : Q) : 0 < q -> JS.sign q = 1.
Proof.
  intro H. unfold JS.sign.
  assert (E : (q ?= 0) = Gt) by (apply Qgt_alt; exact H).
  rewrite E. reflexivity.
Qed.

Lemma sign_neg (q : Q) : q < 0 -> JS.sign q = -1.
Proof.
  intro H. unfold JS.sign.
  assert (E : (q ?= 0) = Lt) by (apply Qlt_alt; exact H).
  rewrite E. reflexivity.
Qed.

Lemma min_le_1 (x : Q) : Qmin 1.0 x <= 1.
Proof.
  apply Qle_trans with 1.0; [apply Q.le_min_l | discriminate].
Qed.

(** C5.  A wheel event with vertical delta [deltaY] adds
    [- deltaY * 0.01] to [targetPosition], raises
    [targetDistortionFactor] by [|deltaY| * 0.001] clamped to at most 1,
    sets [isScrolling] and sets [autoScrollSpeed] to
    [min (|deltaY| * 0.0005) 0.05 * sign deltaY]; with [deltaY = 100] the
    target position changes by exactly -1 and the speed becomes 0.05. *)
Theorem wheel_handler_effect (deltaY : Q) (st : State) :
  let st' := onWheel deltaY st in
  targetPosition st' == targetPosition st + - deltaY * 0.01
  /\ targetDistortionFactor st'
     = Qmin 1.0 (targetDistortionFactor st + Qabs deltaY * 0.001)
  /\ targetDistortionFactor st' <= 1
  /\ isScrolling st' = true
  /\ autoScrollSpeed st'
     = Qmin (Qabs deltaY * 0.0005) 0.05 * JS.sign deltaY
  /\ (deltaY == 100 ->
      targetPosition st' - targetPosition st == -1
      /\ autoScrollSpeed st' == 0.05).
Proof.
  cbv zeta. unfold onWheel.
  cbn [targetPosition targetDistortionFactor isScrolling autoScrollSpeed
       set_targetPosition set_isScrolling set_autoScrollSpeed
       set_targetDistortionFactor wheelSensitivity settings].
  split; [ring|]. split; [reflexivity|]. split; [apply min_le_1|].
  split; [reflexivity|]. split; [reflexivity|].
  intro H100. unfold JS.min, JS.abs.
  assert (Hpos : 0 < deltaY) by lra.
  assert (Habs : Qabs deltaY == 100).
  { rewrite Qabs_pos; lra. }
  assert (Hmin : Qmin (Qabs deltaY * 0.0005) 0.05 == 0.05).
  { apply Q.min_r. lra. }
  rewrite (sign_pos _ Hpos).
  split; lra.
Qed.

(** C6.  On touchend the release velocity is
    [(touchLastX - touchStartX) * 0.005].  Above 0.5 in magnitude the
    handler sets [autoScrollSpeed = - velocity * 2 * 0.05], sets the
    distortion target to [min 1 (|velocity| * 3 * 0.15)] and marks the
    carousel as scrolling; otherwise it changes nothing.  A drag from 0
    to 200 gives velocity 1 and speed -0.1. *)
Theorem touchend_handler_effect (st : State) :
  let velocity := (touchLastX st - touchStartX st) * 0.005 in
  let st' := onTouchend st in
  (0.5 < Qabs velocity ->
     autoScrollSpeed st' = - velocity * 2 * 0.05
     /\ targetDistortionFactor st' = Qmin 1.0 (Qabs velocity * 3 * 0.15)
     /\ isScrolling st' = true)
  /\ (Qabs velocity <= 0.5 ->
      st' = st
      /\ autoScrollSpeed st' = autoScrollSpeed st
      /\ targetDistortionFactor st' = targetDistortionFactor st
      /\ isScrolling st' = isScrolling st)
  /\ (touchStartX st == 0 -> touchLastX st == 200 ->
      velocity == 1 /\ autoScrollSpeed st' == -0.1).
Proof.
  cbv zeta. unfold onTouchend, JS.abs.
  set (velocity := (touchLastX st - touchStartX st) * 0.005).
  split; [|split].
  - intro H. apply ltb_true in H. rewrite H. repeat split.
  - intro H. apply ltb_false in H. rewrite H. repeat split.
  - intros H0 H200.
    assert (Hv : velocity == 1) by (unfold velocity; lra).
    assert (Hb : JS.ltb 0.5 (Qabs velocity) = true).
    { apply ltb_true. rewrite Qabs_pos; lra. }
    rewrite Hb. split; [exact Hv|].
    cbn [autoScrollSpeed set_autoScrollSpeed set_isScrolling
         set_targetDistortionFactor momentumMultiplier settings].
    lra.
Qed.

End Handlers.

(** ** The scroll integrator and the position smoothing *)

Section Integrators.

Context {M : MathLib}.

Lemma scrollIntegrator_scrolling (st : State) :
  isScrolling st = true ->
  targetPosition (scrollIntegrator st) = targetPosition st + autoScrollSpeed st
  /\ autoScrollSpeed (scrollIntegrator st) = decayedSpeed (autoScrollSpeed st)
  /\ currentPosition (scrollIntegrator st) = currentPosition st
  /\ isScrolling (scrollIntegrator st) = true.
Proof.
  intro H. unfold scrollIntegrator, decayedSpeed. rewrite H. cbv zeta.
  cbn [autoScrollSpeed set_autoScrollSpeed set_targetPosition].
  unfold JS.abs, JS.max.
  destruct (JS.ltb _ 0.001); cbn; rewrite ?H; repeat split.
Qed.

Lemma scrollIntegrator_idle (st : State) :
  isScrolling st = false -> scrollIntegrator st = st.
Proof. intro H. unfold scrollIntegrator. rewrite H. reflexivity. Qed.

(** What a frame does to the scroll variables: the integrator runs on
    the incoming state, the smoothing on its result. *)
Lemma animate_scroll_fields (time : Q) (st : State) :
  targetPosition (animate time st) = targetPosition (scrollIntegrator st)
  /\ autoScrollSpeed (animate time st) = autoScrollSpeed (scrollIntegrator st)
  /\ isScrolling (animate time st) = isScrolling st
  /\ currentPosition (animate time st) =
     currentPosition st
     + (targetPosition (scrollIntegrator st) - currentPosition st)
       * smoothing settings.
Proof.
  rewrite animate_phases.
  unfold layoutSlides, distortionIntegrator, smoothPosition,
    set_currentPosition.
  cbn [targetPosition autoScrollSpeed isScrolling currentPosition].
  destruct (scrollIntegrator_stamped time st) as (-> & ->).
  destruct (scrollIntegrator_frame (stamped time st))
    as (_ & -> & -> & _).
  repeat split.
Qed.

(** C7.  In a frame with [isScrolling] set, [animate] first adds
    [autoScrollSpeed] to [targetPosition], then multiplies
    [autoScrollSpeed] by [max 0.92 (0.97 - |autoScrollSpeed| * 0.5)] and
    replaces it by exactly 0 when its magnitude has fallen below 0.001.
    In a frame with [isScrolling] clear, neither variable changes. *)
Theorem scroll_integrator_effect (time : Q) (st : State) :
  let st' := animate time st in
  let decayed :=
    autoScrollSpeed st * Qmax 0.92 (0.97 - Qabs (autoScrollSpeed st) * 0.5) in
  (isScrolling st = true ->
     targetPosition st' = targetPosition st + autoScrollSpeed st
     /\ (Qabs decayed < 0.001 -> autoScrollSpeed st' = 0)
     /\ (0.001 <= Qabs decayed -> autoScrollSpeed st' = decayed))
  /\ (isScrolling st = false ->
      targetPosition st' = targetPosition st
      /\ autoScrollSpeed st' = autoScrollSpeed st).
Proof.
  cbv zeta.
  destruct (animate_scroll_fields time st) as (Ht & Ha & _ & _).
  rewrite Ht, Ha. split.
  - intro H. destruct (scrollIntegrator_scrolling st H) as (-> & -> & _).
    unfold decayedSpeed. cbv zeta.
    split; [reflexivity|]. split; intro Hd.
    + apply ltb_true in Hd. rewrite Hd. reflexivity.
    + apply ltb_false in Hd. rewrite Hd. reflexivity.
  - intro H. rewrite (scrollIntegrator_idle st H). split; reflexivity.
Qed.

Lemma animate_idle_error (time : Q) (st : State) :
  isScrolling st = false ->
  targetPosition (animate time st) = targetPosition st
  /\ isScrolling (animate time st) = false
  /\ positionError (animate time st)
     == positionError st * (1 - smoothing settings).
Proof.
  intro H. unfold positionError.
  destruct (animate_scroll_fields time st) as (Ht & _ & Hs & Hc).
  rewrite Ht, Hc, Hs, (scrollIntegrator_idle st H).
  split; [reflexivity|]. split; [exact H|]. ring.
Qed.

Lemma idle_frames_error (times : list Q) (st : State) :
  isScrolling st = false ->
  positionError (run st (map Frame times))
  == positionError st * 0.9 ^ Z.of_nat (List.length times).
Proof.
  revert st. induction times as [|t ts IH]; intros st H.
  - simpl. ring.
  - destruct (animate_idle_error t st H) as (_ & Hs & He).
    cbn [map run fold_left step List.length].
    change (fold_left step (map Frame ts) (animate t st))
      with (run (animate t st) (map Frame ts)).
    rewrite (IH _ Hs), He.
    rewrite Nat2Z.inj_succ. unfold Z.succ.
    rewrite Qpower_plus by discriminate.
    change (smoothing settings) with 0.1.
    set (p := 0.9 ^ Z.of_nat (List.length ts)).
    change (0.9 ^ 1) with 0.9. ring.
Qed.

(** C4.  In frames with no input and [isScrolling] clear the target
    stays put and the update of line 256 multiplies the error
    [targetPosition - currentPosition] by exactly [1 - smoothing = 0.9]:
    after [k] such frames the error is [error0 * 0.9 ^ k].  For any
    smoothing factor at most 1 the step keeps the sign of the error, so
    the position never overshoots its target. *)
Theorem idle_error_decays_by_nine_tenths (st : State) (times : list Q) :
  isScrolling st = false ->
  (forall time,
     targetPosition (animate time st) = targetPosition st
     /\ positionError (animate time st) == positionError st * 0.9)
  /\ positionError (run st (map Frame times))
     == positionError st * 0.9 ^ Z.of_nat (List.length times)
  /\ (forall k, k <= 1 ->
        positionError (smoothPosition k st) == positionError st * (1 - k)
        /\ (0 <= positionError st -> 0 <= positionError (smoothPosition k st))
        /\ (positionError st <= 0 -> positionError (smoothPosition k st) <= 0)).
Proof.
  intro H. split; [|split].
  - intro time. destruct (animate_idle_error time st H) as (Ht & _ & He).
    split; [exact Ht|]. rewrite He.
    change (smoothing settings) with 0.1. ring.
  - apply idle_frames_error, H.
  - intros k Hk. unfold positionError, smoothPosition.
    cbn [targetPosition currentPosition set_currentPosition].
    set (e := targetPosition st - currentPosition st).
    assert (He : targetPosition st
                 - (currentPosition st + e * k) == e * (1 - k))
      by (unfold e; ring).
    split; [exact He|]. split; intro Hsign; rewrite He; nra.
Qed.

End Integrators.

(** ** Initial layout *)

Section Initial.

Lemma nth_error_initial_slides (i : nat) :
  (i < slideCount)%nat ->
  nth_error (slides initialState) i = Some (centreSlide i (createSlide i)).
Proof.
  intro Hi. unfold initialState, createSlides. cbn [slides].
  rewrite nth_error_mapi, nth_error_map, nth_error_seq.
  apply Nat.ltb_lt in Hi. rewrite Hi. reflexivity.
Qed.

Lemma initial_slides_length : List.length (slides initialState) = slideCount.
Proof.
  unfold initialState, createSlides. cbn [slides].
  rewrite length_mapi, length_map, length_seq. reflexivity.
Qed.

Lemma centred_x (i : nat) :
  num i * (slideWidth + gap) - totalWidth / 2 == num i * 3.1 - 15.5.
Proof.
  pose proof halfWidth_val as Hh.
  set (h := totalWidth / 2) in *. clearbody h.
  unfold slideWidth, gap. lra.
Qed.

(** C9.  With ten slides of width 3.0 and gap 0.1 the slide unit is 3.1
    and the total width 31.0; after creation and the centring pass slide
    [i] (0..9) has [position.x], [targetX] and [currentX] all equal to
    [i * 3.1 - 15.5]. *)
Theorem initial_slide_positions (i : nat) :
  (i < slideCount)%nat ->
  slideUnit == 3.1 /\ totalWidth == 31.0
  /\ exists s,
       nth_error (slides initialState) i = Some s
       /\ position_x s == num i * 3.1 - 15.5
       /\ targetX s == num i * 3.1 - 15.5
       /\ currentX s == num i * 3.1 - 15.5.
Proof.
  intro Hi. split; [reflexivity|]. split; [reflexivity|].
  exists (centreSlide i (createSlide i)).
  split; [apply nth_error_initial_slides, Hi|].
  unfold centreSlide, createSlide.
  cbn [position_x targetX currentX].
  repeat split; apply centred_x.
Qed.

End Initial.

(** ** No slide is ever culled *)

Section Culling.

Context {M : MathLib}.

Lemma step_slides (st : State) (e : Event) :
  (forall time, e <> Frame time) -> slides (step st e) = slides st.
Proof.
  intro Hne. destruct e as [key|dy|x|x| | | |time]; cbn [step];
    try reflexivity.
  - unfold onKeydown. destruct (String.eqb key "ArrowLeft");
      [reflexivity|]. destruct (String.eqb key "ArrowRight"); reflexivity.
  - unfold onTouchend. destruct (JS.ltb _ _); reflexivity.
  - exfalso. apply (Hne time). reflexivity.
Qed.

(** The lerp of line 297 stays between the old position and the wrapped
    target, whether or not the slide snapped first. *)
Lemma updateSlide_within (cp d : Q) (i : nat) (s : Slide) :
  Qabs (currentX s) <= totalWidth / 2 ->
  Qabs (currentX (updateSlide cp d i s)) <= totalWidth / 2.
Proof.
  intro Hs. rewrite updateSlide_currentX. cbv zeta.
  destruct (wrapBaseX_range i cp) as [Hlo Hhi].
  set (b := wrapBaseX i cp) in *. clearbody b.
  pose proof halfWidth_val as Hh.
  set (h := totalWidth / 2) in *. clearbody h.
  apply Qabs_Qle_condition in Hs. apply Qabs_Qle_condition.
  change (slideLerp settings) with 0.075.
  destruct (JS.ltb (slideWidth * 2) (JS.abs (b - targetX s))); split; lra.
Qed.

Lemma animate_within (time : Q) (st : State) :
  withinHalfWidth st -> withinHalfWidth (animate time st).
Proof.
  unfold withinHalfWidth. intro H. rewrite animate_slides. unfold mapi.
  apply (Forall_mapi_from (fun s => Qabs (currentX s) <= totalWidth / 2)).
  - intros i s Hs. apply updateSlide_within, Hs.
  - exact H.
Qed.

Lemma initial_within : withinHalfWidth initialState.
Proof.
  unfold withinHalfWidth, initialState, createSlides. cbn [slides].
  unfold mapi.
  apply (Forall_mapi_from (fun s => exists i, (i < slideCount)%nat
                                     /\ s = createSlide i)).
  - intros j s (i & Hi & ->).
    unfold centreSlide, createSlide. cbn [currentX position_x].
    apply Qabs_Qle_condition.
    pose proof (centred_x i) as Hc.
    pose proof halfWidth_val as Hh.
    set (h := totalWidth / 2) in *. clearbody h.
    assert (H0 : 0 <= num i).
    { unfold num. change 0 with (inject_Z 0). rewrite <- Zle_Qle. lia. }
    assert (H9 : num i <= 9).
    { unfold num. change 9 with (inject_Z 9). rewrite <- Zle_Qle.
      unfold slideCount in Hi. lia. }
    unfold slideWidth, gap in *. split; lra.
  - apply Forall_forall. intros s Hin. apply in_map_iff in Hin.
    destruct Hin as (i & <- & Hin). apply in_seq in Hin.
    exists i. split; [lia|reflexivity].
Qed.

Lemma reachable_within (st : State) : reachable st -> withinHalfWidth st.
Proof.
  induction 1 as [|st e Hr IH].
  - apply initial_within.
  - destruct e as [key|dy|x|x| | | |time];
      try (unfold withinHalfWidth;
           rewrite step_slides by (intros t; discriminate); exact IH).
    cbn [step]. apply animate_within, IH.
Qed.

(** When the proximity test of line 300 passes, the slide is moved to
    [currentX] and its mesh is recomputed. *)
Lemma updateSlide_visible (cp d : Q) (i : nat) (s : Slide) :
  let s' := updateSlide cp d i s in
  JS.ltb (Qabs (currentX s')) ((totalWidth / 2 + slideWidth) * 1.5) = true ->
  s' = updateCurve
         (mkSlide (currentX s') (geometry s) (index s) (originalVertices s)
            (targetX s') (currentX s'))
         (currentX s') d.
Proof.
  cbv zeta. rewrite updateSlide_targetX, updateSlide_currentX. cbv zeta.
  intro Ht. unfold updateSlide. cbv zeta.
  cbn [currentX targetX position_x geometry index originalVertices].
  unfold JS.abs in *. rewrite Ht. reflexivity.
Qed.

(** C10.  In every reachable state every slide has
    [|currentX| <= totalWidth / 2]; hence in every frame the proximity
    test [|currentX| < 1.5 * (totalWidth / 2 + slideWidth)] succeeds for
    every slide: none is culled, each one is moved to its [currentX] and
    has its mesh recomputed by [updateCurve]. *)
Theorem no_slide_is_ever_culled (st : State) :
  reachable st ->
  withinHalfWidth st
  /\ forall time i s,
       nth_error (slides st) i = Some s ->
       exists s',
         nth_error (slides (animate time st)) i = Some s'
         /\ Qabs (currentX s') <= totalWidth / 2
         /\ JS.ltb (Qabs (currentX s'))
              ((totalWidth / 2 + slideWidth) * 1.5) = true
         /\ position_x s' = currentX s'
         /\ s' = updateCurve
                   (mkSlide (currentX s') (geometry s) (index s)
                      (originalVertices s) (targetX s') (currentX s'))
                   (currentX s')
                   (currentDistortionFactor (animate time st)).
Proof.
  intro Hr. pose proof (reachable_within st Hr) as Hin.
  split; [exact Hin|].
  intros time i s Hs.
  rewrite animate_slides, nth_error_mapi, Hs. cbn [option_map].
  eexists. split; [reflexivity|].
  set (cp := currentPosition (animate time st)).
  set (d := currentDistortionFactor (animate time st)).
  assert (Hc : Qabs (currentX s) <= totalWidth / 2).
  { unfold withinHalfWidth in Hin. rewrite Forall_forall in Hin.
    apply Hin. eapply nth_error_In, Hs. }
  pose proof (updateSlide_within cp d i s Hc) as Hc'.
  assert (Ht : JS.ltb (Qabs (currentX (updateSlide cp d i s)))
                 ((totalWidth / 2 + slideWidth) * 1.5) = true).
  { apply ltb_true.
    pose proof halfWidth_val as Hh.
    set (h := totalWidth / 2) in *. clearbody h.
    unfold slideWidth. lra. }
  split; [exact Hc'|]. split; [exact Ht|].
  pose proof (updateSlide_visible cp d i s Ht) as Hv.
  split; [|exact Hv].
  rewrite Hv at 1. reflexivity.
Qed.

End Culling.

(** ** Range of the distortion factors *)

Section Distortion.

Context {M : MathLib}.

Lemma min_one_spec (x : Q) :
  (x <= 1 /\ Qmin 1.0 x == x) \/ (1 <= x /\ Qmin 1.0 x == 1).
Proof.
  destruct (Q.min_spec 1.0 x) as [[H1 H2]|[H1 H2]].
  - right. split; lra.
  - left. split; lra.
Qed.

Lemma raise_unit (t cv : Q) (b : bool) :
  0 <= t /\ t <= 1 ->
  let t1 := if b then JS.max t (JS.min 1.0 (cv * 0.1)) else t in
  0 <= t1 /\ t1 <= 1.
Proof.
  intros [H0 H1]. cbv zeta. destruct b; [|split; assumption].
  unfold JS.max, JS.min.
  destruct (min_one_spec (cv * 0.1)) as [[Ha Hb]|[Ha Hb]];
    destruct (Q.max_spec t (Qmin 1.0 (cv * 0.1))) as [[Hc Hd]|[Hc Hd]];
    split; lra.
Qed.

Lemma raise_at_most_one (t cv : Q) (b : bool) :
  t <= 1 ->
  (if b then JS.max t (JS.min 1.0 (cv * 0.1)) else t) <= 1.
Proof.
  intros H1. destruct b; [|assumption].
  unfold JS.max, JS.min.
  destruct (min_one_spec (cv * 0.1)) as [[Ha Hb]|[Ha Hb]];
    destruct (Q.max_spec t (Qmin 1.0 (cv * 0.1))) as [[Hc Hd]|[Hc Hd]];
    lra.
Qed.

Lemma decay_unit (t1 : Q) (b1 b2 : bool) :
  0 <= t1 /\ t1 <= 1 ->
  let t' := if b1 || b2
            then t1 * (if b1 then distortionDecay settings
                       else distortionDecay settings * 0.9)
            else t1 in
  0 <= t' /\ t' <= 1.
Proof.
  intros [H0 H1]. cbv zeta.
  change (distortionDecay settings) with 0.95.
  destruct b1, b2; cbn [orb]; split; lra.
Qed.

Lemma decay_at_most_one (t1 : Q) (b1 b2 : bool) :
  t1 <= 1 ->
  (if b1 || b2
   then t1 * (if b1 then distortionDecay settings
              else distortionDecay settings * 0.9)
   else t1) <= 1.
Proof.
  intros H1. change (distortionDecay settings) with 0.95.
  destruct b1, b2; cbn [orb]; lra.
Qed.

Lemma distortionIntegrator_unit (dt pp : Q) (st : State) :
  distortionInUnit st -> distortionInUnit (distortionIntegrator dt pp st).
Proof.
  unfold distortionInUnit. intros [Ht Hc].
  unfold distortionIntegrator. cbv zeta.
  cbn [targetDistortionFactor currentDistortionFactor].
  match goal with
  | |- (0 <= ?t /\ ?t <= 1) /\ _ =>
      assert (Ht' : 0 <= t /\ t <= 1);
      [ apply decay_unit, raise_unit, Ht | set (t' := t) in * ]
  end.
  clearbody t'. change (distortionSmoothing settings) with 0.075.
  split; [exact Ht'|]. split; lra.
Qed.

Lemma distortionIntegrator_at_most_one (dt pp : Q) (st : State) :
  distortionAtMostOne st ->
  distortionAtMostOne (distortionIntegrator dt pp st).
Proof.
  unfold distortionAtMostOne. intros [Ht Hc].
  unfold distortionIntegrator. cbv zeta.
  cbn [targetDistortionFactor currentDistortionFactor].
  match goal with
  | |- ?t <= 1 /\ _ =>
      assert (Ht' : t <= 1);
      [ apply decay_at_most_one, raise_at_most_one, Ht
      | set (t' := t) in * ]
  end.
  clearbody t'. change (distortionSmoothing settings) with 0.075.
  split; [exact Ht'|]. lra.
Qed.

(** A frame changes the two factors through the distortion integrator
    only. *)
Lemma animate_distortion (time : Q) (st : State) :
  exists dt pp st0,
    targetDistortionFactor st0 = targetDistortionFactor st
    /\ currentDistortionFactor st0 = currentDistortionFactor st
    /\ targetDistortionFactor (animate time st)
       = targetDistortionFactor (distortionIntegrator dt pp st0)
    /\ currentDistortionFactor (animate time st)
       = currentDistortionFactor (distortionIntegrator dt pp st0).
Proof.
  rewrite animate_phases.
  eexists _, _, _. split; [|split; [|split; reflexivity]].
  - unfold smoothPosition, set_currentPosition.
    cbn [targetDistortionFactor].
    destruct (scrollIntegrator_frame (stamped time st))
      as (_ & _ & _ & -> & _).
    reflexivity.
  - unfold smoothPosition, set_currentPosition.
    cbn [currentDistortionFactor].
    destruct (scrollIntegrator_frame (stamped time st))
      as (_ & _ & _ & _ & ->).
    reflexivity.
Qed.

Lemma animate_unit (time : Q) (st : State) :
  distortionInUnit st -> distortionInUnit (animate time st).
Proof.
  intro H. destruct (animate_distortion time st)
    as (dt & pp & st0 & Ht0 & Hc0 & Ht & Hc).
  unfold distortionInUnit. rewrite Ht, Hc.
  apply distortionIntegrator_unit.
  unfold distortionInUnit. rewrite Ht0, Hc0. exact H.
Qed.

Lemma animate_at_most_one (time : Q) (st : State) :
  distortionAtMostOne st -> distortionAtMostOne (animate time st).
Proof.
  intro H. destruct (animate_distortion time st)
    as (dt & pp & st0 & Ht0 & Hc0 & Ht & Hc).
  unfold distortionAtMostOne. rewrite Ht, Hc.
  apply distortionIntegrator_at_most_one.
  unfold distortionAtMostOne. rewrite Ht0, Hc0. exact H.
Qed.

(** Keyboard, wheel, touchstart, touchend, resize, the timers and the
    frame update all keep both factors in [0, 1]. *)
Lemma step_keeps_unit (st : State) (e : Event) :
  (forall x, e <> Touchmove x) ->
  distortionInUnit st -> distortionInUnit (step st e).
Proof.
  intros Hne H. destruct e as [key|dy|x|x| | | |time]; cbn [step].
  - unfold onKeydown.
    destruct H as [[H0 H1] Hc]. unfold distortionInUnit.
    destruct (String.eqb key "ArrowLeft");
      [|destruct (String.eqb key "ArrowRight")];
      cbn [targetDistortionFactor currentDistortionFactor
           set_targetDistortionFactor set_targetPosition];
      try (split; [split; assumption|exact Hc]);
      unfold JS.min;
      destruct (min_one_spec (targetDistortionFactor st + 0.3))
        as [[Ha Hb]|[Ha Hb]];
      (split; [split; lra|exact Hc]).
  - destruct H as [[H0 H1] Hc]. unfold distortionInUnit, onWheel.
    cbn [targetDistortionFactor currentDistortionFactor
         set_targetDistortionFactor set_targetPosition set_isScrolling
         set_autoScrollSpeed].
    unfold JS.min, JS.abs.
    pose proof (Qabs_nonneg dy) as Habs.
    destruct (min_one_spec (targetDistortionFactor st + Qabs dy * 0.001))
      as [[Ha Hb]|[Ha Hb]];
      (split; [split; lra|exact Hc]).
  - exact H.
  - exfalso. apply (Hne x). reflexivity.
  - destruct H as [[H0 H1] Hc]. unfold distortionInUnit, onTouchend.
    destruct (JS.ltb _ _); [|split; [split; assumption|exact Hc]].
    cbn [targetDistortionFactor currentDistortionFactor
         set_targetDistortionFactor set_isScrolling set_autoScrollSpeed].
    unfold JS.min, JS.abs.
    set (v := (touchLastX st - touchStartX st) * 0.005).
    pose proof (Qabs_nonneg v) as Habs.
    change (distortionSensitivity settings) with 0.15.
    destruct (min_one_spec (Qabs v * 3 * 0.15)) as [[Ha Hb]|[Ha Hb]];
      (split; [split; lra|exact Hc]).
  - exact H.
  - exact H.
  - apply animate_unit, H.
Qed.

(** The upper bound survives every event, touchmove included. *)
Lemma step_keeps_at_most_one (st : State) (e : Event) :
  distortionAtMostOne st -> distortionAtMostOne (step st e).
Proof.
  intros [H1 Hc]. destruct e as [key|dy|x|x| | | |time]; cbn [step].
  - unfold onKeydown, distortionAtMostOne.
    destruct (String.eqb key "ArrowLeft");
      [|destruct (String.eqb key "ArrowRight")];
      cbn [targetDistortionFactor currentDistortionFactor
           set_targetDistortionFactor set_targetPosition];
      try (split; assumption);
      (split; [apply min_le_1|exact Hc]).
  - unfold distortionAtMostOne, onWheel.
    cbn [targetDistortionFactor currentDistortionFactor
         set_targetDistortionFactor set_targetPosition set_isScrolling
         set_autoScrollSpeed].
    split; [apply min_le_1|exact Hc].
  - split; assumption.
  - unfold distortionAtMostOne, onTouchmove.
    cbn [targetDistortionFactor currentDistortionFactor
         set_targetDistortionFactor set_targetPosition set_isScrolling
         set_touchLastX].
    split; [apply min_le_1|exact Hc].
  - unfold distortionAtMostOne, onTouchend.
    destruct (JS.ltb _ _); [|split; assumption].
    cbn [targetDistortionFactor currentDistortionFactor
         set_targetDistortionFactor set_isScrolling set_autoScrollSpeed].
    split; [apply min_le_1|exact Hc].
  - split; assumption.
  - split; assumption.
  - apply animate_at_most_one. split; assumption.
Qed.

Lemma reachable_at_most_one (st : State) :
  reachable st -> distortionAtMostOne st.
Proof.
  induction 1 as [|st e Hr IH].
  - split; discriminate.
  - apply step_keeps_at_most_one, IH.
Qed.


(** C8.  Starting from the initial state both distortion factors are
    meant to stay in [0, 1] after every handler and every frame.  The
    touchmove handler of line 210 subtracts the touch strength and clamps
    from above only: a drag of 100 px drives [targetDistortionFactor] to
    -2, and a drag of 100 px there and back followed by one frame leaves
    [targetDistortionFactor] at -3.42 and [currentDistortionFactor] at
    -0.2565. *)
Theorem touchmove_takes_distortion_below_zero :
  let boot := run initialState [Frame 0] in
  targetDistortionFactor (run boot [Touchstart 0; Touchmove 100]) == -2
  /\ targetDistortionFactor
       (run boot [Touchstart 0; Touchmove 100; Touchmove 0; Frame 16])
     == -3.42
  /\ currentDistortionFactor
       (run boot [Touchstart 0; Touchmove 100; Touchmove 0; Frame 16])
     == -0.2565.
Proof.
  cbv zeta. vm_compute. repeat split.
Qed.

End Distortion.


(** ** Concrete runs *)

Section Runs.

Context {M : MathLib}.

Example afterWheel_targetPosition : targetPosition afterWheel == -0.95.
Proof. vm_compute. reflexivity. Qed.

Example afterWheel_currentPosition : currentPosition afterWheel == -0.095.
Proof. vm_compute. reflexivity. Qed.

Example afterWheel_autoScrollSpeed : autoScrollSpeed afterWheel == 0.04725.
Proof. vm_compute. reflexivity. Qed.

Example afterWheel_targetX :
  Forall2 Qeq (map targetX (slides afterWheel))
    [0.095; 3.195; 6.295; 9.395; 12.495; -15.405; -12.305; -9.205; -6.105;
     -3.005].
Proof. vm_compute. repeat constructor. Qed.

Example keydown_left :
  targetPosition (onKeydown "ArrowLeft" initialState) == 3.1
  /\ targetDistortionFactor (onKeydown "ArrowLeft" initialState) == 0.3.
Proof. vm_compute. split; reflexivity. Qed.

Example keydown_other : onKeydown "Enter" initialState = initialState.
Proof. reflexivity. Qed.

Lemma reachable_run (st : State) (es : list Event) :
  reachable st -> reachable (run st es).
Proof.
  revert st. induction es as [|e es IH]; intros st H; [exact H|].
  apply IH. constructor. exact H.
Qed.

End Runs.

(** ** The theorems at concrete inputs *)

Lemma wrap_snap_currentX_is_targetX_witness :
  let M := rationalMath in
  let s := centreSlide 0 (createSlide 0) in
  nth_error (slides initialState) 0 = Some s
  /\ slideWidth * 2
     < Qabs (wrapBaseX 0 (currentPosition (animate 0 initialState))
             - targetX s)
  /\ exists s',
       nth_error (slides (animate 0 initialState)) 0 = Some s'
       /\ targetX s' = wrapBaseX 0 (currentPosition (animate 0 initialState))
       /\ currentX s' == targetX s'.
Proof.
  cbv zeta.
  assert (H1 : nth_error (slides initialState) 0
               = Some (centreSlide 0 (createSlide 0)))
    by (apply nth_error_initial_slides; unfold slideCount; lia).
  assert (H2 : slideWidth * 2
               < Qabs (wrapBaseX 0
                         (currentPosition
                            (animate (M := rationalMath) 0 initialState))
                       - targetX (centreSlide 0 (createSlide 0)))).
  { destruct (animate_scroll_fields (M := rationalMath) 0 initialState)
      as (_ & _ & _ & Hc).
    rewrite Hc. vm_compute. reflexivity. }
  split; [exact H1|]. split; [exact H2|].
  exact (wrap_snap_currentX_is_targetX (M := rationalMath) 0 initialState 0 _ H1 H2).
Defined.

Lemma updateCurve_flat_at_zero_and_pure_witness :
  let M := rationalMath in
  let mesh := centreSlide 0 (createSlide 0) in
  mesh_wf mesh
  /\ Forall (fun v => vz v == 0) (geometry (updateCurve mesh 1 0))
  /\ map vz (geometry (updateCurve mesh 1 0.5)) =
     map (fun o => curveZ 1 0.5 (vx o) (vy o)) (originalVertices mesh)
  /\ (forall mesh2, mesh_wf mesh2 ->
        originalVertices mesh2 = originalVertices mesh ->
        map vz (geometry (updateCurve mesh2 1 0.5)) =
        map vz (geometry (updateCurve mesh 1 0.5)))
  /\ updateCurve (updateCurve mesh 1 0.5) 1 0.5 = updateCurve mesh 1 0.5.
Proof.
  cbv zeta.
  assert (Hwf : mesh_wf (centreSlide 0 (createSlide 0))) by reflexivity.
  split; [exact Hwf|].
  exact (updateCurve_flat_at_zero_and_pure (M := rationalMath)
           (centreSlide 0 (createSlide 0)) 1 0.5 Hwf).
Defined.

Lemma idle_error_decays_by_nine_tenths_witness :
  let M := rationalMath in
  let st := onScrollTimeout (onWheel 100 initialState) in
  let times := [16; 32; 48] in
  isScrolling st = false
  /\ (forall time,
        targetPosition (animate time st) = targetPosition st
        /\ positionError (animate time st) == positionError st * 0.9)
  /\ positionError (run st (map Frame times))
     == positionError st * 0.9 ^ Z.of_nat (List.length times)
  /\ (forall k, k <= 1 ->
        positionError (smoothPosition k st) == positionError st * (1 - k)
        /\ (0 <= positionError st -> 0 <= positionError (smoothPosition k st))
        /\ (positionError st <= 0 -> positionError (smoothPosition k st) <= 0)).
Proof.
  cbv zeta.
  assert (H : isScrolling (onScrollTimeout (onWheel 100 initialState)) = false)
    by reflexivity.
  split; [exact H|].
  exact (idle_error_decays_by_nine_tenths (M := rationalMath)
           (onScrollTimeout (onWheel 100 initialState)) [16; 32; 48] H).
Defined.

Lemma wheel_handler_effect_witness :
  100 == 100
  /\ targetPosition (onWheel 100 initialState) - targetPosition initialState
     == -1
  /\ autoScrollSpeed (onWheel 100 initialState) == 0.05.
Proof.
  assert (H : 100 == 100) by reflexivity.
  split; [exact H|].
  pose proof (wheel_handler_effect 100 initialState) as W. cbv zeta in W.
  destruct W as (_ & _ & _ & _ & _ & W). exact (W H).
Defined.

Lemma touchend_handler_effect_witness :
  let st := onTouchmove 200 (onTouchstart 0 initialState) in
  touchStartX st == 0 /\ touchLastX st == 200
  /\ 0.5 < Qabs ((touchLastX st - touchStartX st) * 0.005)
  /\ (touchLastX st - touchStartX st) * 0.005 == 1
  /\ autoScrollSpeed (onTouchend st) == -0.1
  /\ targetDistortionFactor (onTouchend st) == 0.45
  /\ isScrolling (onTouchend st) = true.
Proof.
  cbv zeta.
  set (st := onTouchmove 200 (onTouchstart 0 initialState)).
  assert (H0 : touchStartX st == 0) by reflexivity.
  assert (H200 : touchLastX st == 200) by reflexivity.
  assert (Hv : 0.5 < Qabs ((touchLastX st - touchStartX st) * 0.005))
    by reflexivity.
  pose proof (touchend_handler_effect st) as W. cbv zeta in W.
  destruct W as (Wfast & _ & Wdrag).
  destruct (Wdrag H0 H200) as (W1 & W2).
  destruct (Wfast Hv) as (_ & W3 & W4).
  split; [exact H0|]. split; [exact H200|]. split; [exact Hv|].
  split; [exact W1|]. split; [exact W2|]. split; [|exact W4].
  rewrite W3. vm_compute. reflexivity.
Defined.

Lemma scroll_integrator_effect_witness :
  let M := rationalMath in
  let st := onWheel 100 initialState in
  isScrolling st = true
  /\ 0.001 <= Qabs (autoScrollSpeed st
                    * Qmax 0.92 (0.97 - Qabs (autoScrollSpeed st) * 0.5))
  /\ targetPosition (animate 16 st) = targetPosition st + autoScrollSpeed st
  /\ autoScrollSpeed (animate 16 st)
     = autoScrollSpeed st * Qmax 0.92 (0.97 - Qabs (autoScrollSpeed st) * 0.5).
Proof.
  cbv zeta.
  set (st := onWheel 100 initialState).
  assert (H : isScrolling st = true) by reflexivity.
  assert (Hd : 0.001 <= Qabs (autoScrollSpeed st
                 * Qmax 0.92 (0.97 - Qabs (autoScrollSpeed st) * 0.5)))
    by (vm_compute; discriminate).
  pose proof (scroll_integrator_effect (M := rationalMath) 16 st) as W.
  cbv zeta in W. destruct W as (W & _).
  destruct (W H) as (W1 & _ & W2).
  split; [exact H|]. split; [exact Hd|]. split; [exact W1|exact (W2 Hd)].
Defined.

Lemma initial_slide_positions_witness :
  (3 < slideCount)%nat
  /\ slideUnit == 3.1 /\ totalWidth == 31.0
  /\ exists s,
       nth_error (slides initialState) 3 = Some s
       /\ position_x s == num 3 * 3.1 - 15.5
       /\ targetX s == num 3 * 3.1 - 15.5
       /\ currentX s == num 3 * 3.1 - 15.5.
Proof.
  assert (H : (3 < slideCount)%nat) by (unfold slideCount; lia).
  split; [exact H|]. exact (initial_slide_positions 3 H).
Defined.

Lemma no_slide_is_ever_culled_witness :
  let M := rationalMath in
  let st := run initialState [Frame 0; Wheel 100] in
  reachable st
  /\ withinHalfWidth st
  /\ forall time i s,
       nth_error (slides st) i = Some s ->
       exists s',
         nth_error (slides (animate time st)) i = Some s'
         /\ Qabs (currentX s') <= totalWidth / 2
         /\ JS.ltb (Qabs (currentX s'))
              ((totalWidth / 2 + slideWidth) * 1.5) = true
         /\ position_x s' = currentX s'
         /\ s' = updateCurve
                   (mkSlide (currentX s') (geometry s) (index s)
                      (originalVertices s) (targetX s') (currentX s'))
                   (currentX s')
                   (currentDistortionFactor (animate time st)).
Proof.
  cbv zeta.
  assert (H : reachable (M := rationalMath)
                (run (M := rationalMath) initialState [Frame 0; Wheel 100])).
  { apply reachable_run. constructor. }
  split; [exact H|].
  exact (no_slide_is_ever_culled (M := rationalMath) _ H).
Defined.
(** ** The strip is a torus *)

Section Torus.






End Torus.

Section TorusProperties.






End TorusProperties.

(** ** Momentum *)

Section Momentum.

Context {M : MathLib}.

Lemma decay_factor_range (s : Q) :
  0.92 <= Qmax 0.92 (0.97 - Qabs s * 0.5)
  /\ Qmax 0.92 (0.97 - Qabs s * 0.5) <= 0.97.
Proof.
  pose proof (Qabs_nonneg s) as Hs.
  destruct (Q.max_spec 0.92 (0.97 - Qabs s * 0.5)) as [[H1 H2]|[H1 H2]];
    split; lra.
Qed.

(** One decay step shrinks the speed by at least 3 per cent and keeps
    its sign. *)
Lemma decayedSpeed_bound (s : Q) :
  Qabs (decayedSpeed s) <= 0.97 * Qabs s
  /\ (0 <= s -> 0 <= decayedSpeed s)
  /\ (s <= 0 -> decayedSpeed s <= 0).
Proof.
  unfold decayedSpeed. cbv zeta.
  destruct (decay_factor_range s) as [Hlo Hhi].
  set (m := Qmax 0.92 (0.97 - Qabs s * 0.5)) in *. clearbody m.
  pose proof (Qabs_nonneg s) as Hs.
  assert (Habs : Qabs (s * m) == Qabs s * m).
  { rewrite Qabs_Qmult. rewrite (Qabs_pos m) by lra. reflexivity. }
  destruct (JS.ltb (Qabs (s * m)) 0.001).
  - split; [|split; intros; apply Qle_refl].
    change (Qabs 0) with 0. nra.
  - split; [rewrite Habs; nra|]. split; intro; nra.
Qed.

Lemma animate_speed (time : Q) (st : State) :
  isScrolling st = true ->
  autoScrollSpeed (animate time st) = decayedSpeed (autoScrollSpeed st)
  /\ isScrolling (animate time st) = true.
Proof.
  intro H. destruct (animate_scroll_fields time st) as (_ & Ha & Hs & _).
  destruct (scrollIntegrator_scrolling st H) as (_ & Hd & _).
  rewrite Ha, Hs, Hd. split; [reflexivity|exact H].
Qed.

Lemma animate_speed_idle (time : Q) (st : State) :
  isScrolling st = false ->
  autoScrollSpeed (animate time st) = autoScrollSpeed st.
Proof.
  intro H. destruct (animate_scroll_fields time st) as (_ & Ha & _).
  rewrite Ha, (scrollIntegrator_idle st H). reflexivity.
Qed.

(** X4.  A frame never speeds the momentum up and never reverses it:
    the magnitude of [autoScrollSpeed] does not grow, its sign is kept,
    and while [isScrolling] is set it shrinks by at least 3 per cent. *)
Theorem frame_never_accelerates_momentum (time : Q) (st : State) :
  Qabs (autoScrollSpeed (animate time st)) <= Qabs (autoScrollSpeed st)
  /\ (0 <= autoScrollSpeed st -> 0 <= autoScrollSpeed (animate time st))
  /\ (autoScrollSpeed st <= 0 -> autoScrollSpeed (animate time st) <= 0)
  /\ (isScrolling st = true ->
      Qabs (autoScrollSpeed (animate time st))
      <= 0.97 * Qabs (autoScrollSpeed st)).
Proof.
  destruct (isScrolling st) eqn:E.
  - destruct (animate_speed time st E) as (-> & _).
    destruct (decayedSpeed_bound (autoScrollSpeed st)) as (Hb & Hp & Hn).
    pose proof (Qabs_nonneg (autoScrollSpeed st)) as H0.
    split; [lra|]. split; [exact Hp|]. split; [exact Hn|]. intros _. exact Hb.
  - rewrite (animate_speed_idle time st E).
    split; [apply Qle_refl|]. split; [tauto|]. split; [tauto|]. discriminate.
Qed.

Lemma power_succ (q : Q) (n : nat) :
  ~ q == 0 -> q ^ Z.of_nat (S n) == q * q ^ Z.of_nat n.
Proof.
  intro Hq. rewrite Nat2Z.inj_succ. unfold Z.succ.
  rewrite Qpower_plus by exact Hq. change (q ^ 1) with q. ring.
Qed.

Lemma decayedSpeed_small (s : Q) : Qabs s < 0.001 -> decayedSpeed s = 0.
Proof.
  intro H. unfold decayedSpeed. cbv zeta.
  destruct (decay_factor_range s) as [Hlo Hhi].
  set (m := Qmax 0.92 (0.97 - Qabs s * 0.5)) in *. clearbody m.
  pose proof (Qabs_nonneg s) as Hs.
  assert (Habs : Qabs (s * m) == Qabs s * m).
  { rewrite Qabs_Qmult. rewrite (Qabs_pos m) by lra. reflexivity. }
  destruct (JS.ltb (Qabs (s * m)) 0.001) eqn:E; [reflexivity|].
  apply ltb_false in E. exfalso. nra.
Qed.

Lemma decayedSpeed_dies (n : nat) (s : Q) :
  Qabs s * 0.97 ^ Z.of_nat n < 0.001 ->
  Nat.iter (S n) decayedSpeed s = 0.
Proof.
  revert s. induction n as [|n IH]; intros s H.
  - change (Nat.iter 1 decayedSpeed s) with (decayedSpeed s).
    change (0.97 ^ Z.of_nat 0) with 1 in H.
    apply decayedSpeed_small. lra.
  - rewrite Nat.iter_succ_r. apply IH.
    destruct (decayedSpeed_bound s) as (Hb & _).
    rewrite power_succ in H by discriminate.
    assert (Hp : 0 <= 0.97 ^ Z.of_nat n) by (apply Qpower_pos; discriminate).
    set (p := 0.97 ^ Z.of_nat n) in *. clearbody p.
    set (a := Qabs s) in *. set (b := Qabs (decayedSpeed s)) in *.
    clearbody a b. nra.
Qed.

Lemma scrolling_frames_speed (times : list Q) (st : State) :
  isScrolling st = true ->
  autoScrollSpeed (run st (map Frame times))
  = Nat.iter (List.length times) decayedSpeed (autoScrollSpeed st).
Proof.
  revert st. induction times as [|t ts IH]; intros st H; [reflexivity|].
  destruct (animate_speed t st H) as (Ha & Hs).
  cbn [map run fold_left step List.length].
  change (fold_left step (map Frame ts) (animate t st))
    with (run (animate t st) (map Frame ts)).
  rewrite (IH _ Hs), Ha, Nat.iter_succ_r. reflexivity.
Qed.


Lemma scrolling_frames_stop (st : State) (times : list Q) (n : nat) :
  isScrolling st = true ->
  List.length times = S n ->
  Qabs (autoScrollSpeed st) * 0.97 ^ Z.of_nat n < 0.001 ->
  autoScrollSpeed (run st (map Frame times)) = 0.
Proof.
  intros Hs Hlen Hsmall.
  rewrite (scrolling_frames_speed times st Hs), Hlen.
  apply decayedSpeed_dies, Hsmall.
Qed.

(** X5.  Momentum dies out: if [isScrolling] stays set and only frames
    arrive, then after [n + 1] frames, where
    [|autoScrollSpeed| * 0.97 ^ n < 0.001], [autoScrollSpeed] is
    exactly 0. *)
Theorem momentum_dies_out (st : State) (times : list Q) (n : nat) :
  isScrolling st = true ->
  List.length times = S n ->
  Qabs (autoScrollSpeed st) * 0.97 ^ Z.of_nat n < 0.001 ->
  autoScrollSpeed (run st (map Frame times)) = 0.
Proof. apply scrolling_frames_stop. Qed.


(** The speed set by the wheel handler, as a magnitude and a sign. *)
Lemma wheel_speed_shape (deltaY : Q) (st : State) :
  exists m,
    0 <= m /\ m <= Qabs deltaY * 0.0005 /\ m <= 0.05
    /\ (0 < Qabs deltaY -> 0 < m)
    /\ autoScrollSpeed (onWheel deltaY st) = m * JS.sign deltaY.
Proof.
  exists (Qmin (Qabs deltaY * 0.0005) 0.05).
  pose proof (Qabs_nonneg deltaY) as Hd.
  destruct (Q.min_spec (Qabs deltaY * 0.0005) 0.05) as [[H1 H2]|[H1 H2]];
    repeat split; try lra; intros; lra.
Qed.

(** X7.  Wheel momentum opposes the wheel step: the handler moves
    [targetPosition] against the sign of [deltaY] but gives
    [autoScrollSpeed] the sign of [deltaY], so the speed (at most 0.05,
    and at most a twentieth of the step) pulls the target back toward
    where it was. *)
Theorem wheel_momentum_opposes_step (deltaY : Q) (st : State) :
  ~ deltaY == 0 ->
  let st' := onWheel deltaY st in
  let moved := targetPosition st' - targetPosition st in
  autoScrollSpeed st' * moved < 0
  /\ Qabs (autoScrollSpeed st') <= 0.05
  /\ Qabs (autoScrollSpeed st') * 20 <= Qabs moved.
Proof.
  intro Hne. cbv zeta.
  destruct (wheel_speed_shape deltaY st) as (m & Hm0 & Hm1 & Hm2 & Hm3 & ->).
  assert (Hmv : targetPosition (onWheel deltaY st) - targetPosition st
                == - deltaY * 0.01).
  { unfold onWheel.
    cbn [targetPosition set_targetPosition set_isScrolling
         set_autoScrollSpeed set_targetDistortionFactor wheelSensitivity
         settings]. ring. }
  set (mv := targetPosition (onWheel deltaY st) - targetPosition st) in *.
  clearbody mv.
  destruct (Q_dec deltaY 0) as [[Hlt|Hgt]|Heq]; [| |contradiction].
  - rewrite (sign_neg _ Hlt).
    assert (Ha : Qabs deltaY == - deltaY) by (apply Qabs_neg; lra).
    assert (Hs : Qabs (m * -1) == m).
    { rewrite Qabs_neg by lra. ring. }
    assert (Hv : Qabs mv == - deltaY * 0.01).
    { rewrite Hmv. apply Qabs_pos. lra. }
    rewrite Hs, Hv. set (a := Qabs deltaY) in *. clearbody a.
    assert (0 < m) by (apply Hm3; lra).
    split; [nra|]. split; lra.
  - rewrite (sign_pos _ Hgt).
    assert (Ha : Qabs deltaY == deltaY) by (apply Qabs_pos; lra).
    assert (Hs : Qabs (m * 1) == m).
    { rewrite Qabs_pos by lra. ring. }
    assert (Hv : Qabs mv == deltaY * 0.01).
    { rewrite Hmv, Qabs_neg by lra. ring. }
    rewrite Hs, Hv. set (a := Qabs deltaY) in *. clearbody a.
    assert (0 < m) by (apply Hm3; lra).
    split; [nra|]. split; lra.
Qed.

End Momentum.

(** ** Touch gestures *)

Section Gestures.





End Gestures.

(** ** What the animation leaves alone *)

Section Structure.

Context {M : MathLib}.

Lemma map_vx_withZ (f : nat -> Q) (a : nat) (l : list Vertex) :
  map vx (mapi_from (fun j v => withZ (f j) v) a l) = map vx l.
Proof.
  revert a. induction l as [|v vs IH]; intro a; simpl; [reflexivity|].
  rewrite IH. reflexivity.
Qed.

Lemma map_vy_withZ (f : nat -> Q) (a : nat) (l : list Vertex) :
  map vy (mapi_from (fun j v => withZ (f j) v) a l) = map vy l.
Proof.
  revert a. induction l as [|v vs IH]; intro a; simpl; [reflexivity|].
  rewrite IH. reflexivity.
Qed.

Lemma updateCurve_keeps_xy (mesh : Slide) (wx d : Q) :
  map vx (geometry (updateCurve mesh wx d)) = map vx (geometry mesh)
  /\ map vy (geometry (updateCurve mesh wx d)) = map vy (geometry mesh).
Proof.
  rewrite updateCurve_geometry. unfold mapi.
  split; [apply map_vx_withZ|apply map_vy_withZ].
Qed.

Lemma initial_intact (i : nat) (s : Slide) :
  nth_error (slides initialState) i = Some s -> slideIntact i s.
Proof.
  intro H.
  assert (Hi : (i < slideCount)%nat).
  { rewrite <- initial_slides_length. apply nth_error_Some. congruence. }
  rewrite (nth_error_initial_slides i Hi) in H. injection H as <-.
  repeat split.
Qed.

Lemma updateSlide_intact (cp d : Q) (i : nat) (s : Slide) :
  slideIntact i s ->
  Qabs (currentX s) <= totalWidth / 2 ->
  slideIntact i (updateSlide cp d i s).
Proof.
  intros (Hi & Ho & Hx & Hy & Hp) Hc.
  pose proof (updateSlide_within cp d i s Hc) as Hc'.
  assert (Ht : JS.ltb (Qabs (currentX (updateSlide cp d i s)))
                 ((totalWidth / 2 + slideWidth) * 1.5) = true).
  { apply ltb_true.
    pose proof halfWidth_val as Hh.
    set (h := totalWidth / 2) in *. clearbody h.
    unfold slideWidth. lra. }
  pose proof (updateSlide_visible cp d i s Ht) as Hv.
  set (s' := updateSlide cp d i s) in *. clearbody s'.
  set (moved := mkSlide (currentX s') (geometry s) (index s)
                  (originalVertices s) (targetX s') (currentX s')) in *.
  destruct (updateCurve_keeps_xy moved (currentX s') d) as [Hkx Hky].
  destruct (updateCurve_fields moved (currentX s') d)
    as (Hf1 & Hf2 & Hf3 & Hf4 & Hf5).
  rewrite <- Hv in Hkx, Hky, Hf1, Hf2, Hf3, Hf4, Hf5.
  unfold slideIntact.
  rewrite Hf2, Hf3, Hkx, Hky, Hf1, Hf5. cbn. repeat split; assumption.
Qed.

(** X9.  In every reachable state the strip still holds its
    [slideCount] slides in order, and for each of them the undeformed
    snapshot is the grid captured at creation, the live buffer has kept
    its X and Y coordinates (the deformation moves vertices along Z
    only) and its length, and [mesh.position.x] equals
    [userData.currentX]. *)
Theorem slides_stay_intact (st : State) :
  reachable st ->
  List.length (slides st) = slideCount
  /\ forall i s, nth_error (slides st) i = Some s ->
                 slideIntact i s /\ mesh_wf s.
Proof.
  intro Hr.
  assert (Hwf : forall i s, slideIntact i s -> mesh_wf s).
  { intros i s (_ & _ & Hx & _). unfold mesh_wf.
    rewrite <- (length_map vx (originalVertices s)), <- Hx.
    apply length_map. }
  enough (Hinv : List.length (slides st) = slideCount
                 /\ forall i s, nth_error (slides st) i = Some s ->
                                slideIntact i s).
  { destruct Hinv as [Hl Hs]. split; [exact Hl|].
    intros i s H. split; [apply Hs, H|apply (Hwf i), Hs, H]. }
  induction Hr as [|st e Hr IH].
  - split; [apply initial_slides_length|apply initial_intact].
  - destruct IH as [Hl Hs].
    destruct e as [key|dy|x|x| | | |time];
      try (rewrite step_slides by (intros t; discriminate);
           split; assumption).
    cbn [step]. rewrite animate_slides. split.
    + rewrite length_mapi. exact Hl.
    + intros i s' H. rewrite nth_error_mapi in H.
      destruct (nth_error (slides st) i) as [s|] eqn:E; [|discriminate].
      cbn [option_map] in H. injection H as <-.
      apply updateSlide_intact; [apply Hs, E|].
      pose proof (reachable_within st Hr) as Hin.
      unfold withinHalfWidth in Hin. rewrite Forall_forall in Hin.
      apply Hin. eapply nth_error_In, E.
Qed.

End Structure.

(** ** Bounds on the distortion factors *)

Section DistortionBounds.

Context {M : MathLib}.

(** X10.  Whatever events arrive, neither distortion factor ever
    exceeds 1. *)
Theorem distortion_never_exceeds_one (st : State) :
  reachable st ->
  targetDistortionFactor st <= 1 /\ currentDistortionFactor st <= 1.
Proof. intro H. apply (reachable_at_most_one st H). Qed.

(** X11.  As long as no touchmove event arrives, both distortion
    factors stay in [0, 1]: keyboard, wheel, touchstart, touchend, the
    timers and the frames all keep the interval. *)
Theorem distortion_in_unit_without_touchmove (st : State) (es : list Event) :
  distortionInUnit st ->
  Forall (fun e => forall x, e <> Touchmove x) es ->
  distortionInUnit (run st es).
Proof.
  intros Hst Hes. revert st Hst.
  induction Hes as [|e es He Hes IH]; intros st Hst; [exact Hst|].
  cbn [run fold_left]. apply IH. apply step_keeps_unit; assumption.
Qed.

End DistortionBounds.

(** ** The velocity window *)

Section VelocityWindow.

Context {M : MathLib}.

Lemma scrollIntegrator_window (st : State) :
  velocityHistory (scrollIntegrator st) = velocityHistory st
  /\ peakVelocity (scrollIntegrator st) = peakVelocity st.
Proof.
  unfold scrollIntegrator. destruct (isScrolling st); [|split; reflexivity].
  cbv zeta. destruct (JS.ltb _ 0.001); split; reflexivity.
Qed.

Lemma animate_window (time : Q) (st : State) :
  exists cv avg,
    velocityHistory (animate time st) = tl (velocityHistory st ++ [cv])
    /\ peakVelocity (animate time st)
       = (if JS.ltb (peakVelocity st) avg then avg else peakVelocity st)
         * 0.99.
Proof.
  rewrite animate_phases.
  unfold layoutSlides, distortionIntegrator. cbv zeta.
  cbn [velocityHistory peakVelocity].
  unfold smoothPosition, set_currentPosition.
  cbn [velocityHistory peakVelocity].
  destruct (scrollIntegrator_window (stamped time st)) as (-> & ->).
  cbn [velocityHistory peakVelocity stamped].
  eexists _, _. split; reflexivity.
Qed.

Lemma step_window (st : State) (e : Event) :
  (forall time, e <> Frame time) ->
  velocityHistory (step st e) = velocityHistory st
  /\ peakVelocity (step st e) = peakVelocity st.
Proof.
  intro Hne. destruct e as [key|dy|x|x| | | |time]; cbn [step];
    try (split; reflexivity).
  - unfold onKeydown. destruct (String.eqb key "ArrowLeft");
      [split; reflexivity|].
    destruct (String.eqb key "ArrowRight"); split; reflexivity.
  - unfold onTouchend. destruct (JS.ltb _ _); split; reflexivity.
  - exfalso. apply (Hne time). reflexivity.
Qed.

Lemma length_tl_snoc (l : list Q) (x : Q) :
  List.length (tl (l ++ [x])) = List.length l.
Proof.
  destruct l as [|y l]; [reflexivity|].
  cbn [app tl List.length]. rewrite length_app. cbn. lia.
Qed.

(** X12.  The velocity window keeps its five samples and the velocity
    peak never goes negative in any reachable state; hence neither
    division of the distortion integrator (by the window length, by
    [peakVelocity + 0.001]) is ever a division by zero. *)
Theorem velocity_window_invariant (st : State) :
  reachable st ->
  List.length (velocityHistory st) = 5%nat
  /\ 0 <= peakVelocity st
  /\ forall avg,
       0 < (if JS.ltb (peakVelocity st) avg then avg else peakVelocity st)
           + 0.001.
Proof.
  intro Hr.
  enough (Hinv : List.length (velocityHistory st) = 5%nat
                 /\ 0 <= peakVelocity st).
  { destruct Hinv as [Hl Hp]. split; [exact Hl|]. split; [exact Hp|].
    intro avg. destruct (JS.ltb (peakVelocity st) avg) eqn:E; [|lra].
    apply ltb_true in E. lra. }
  induction Hr as [|st e Hr IH].
  - split; [reflexivity|discriminate].
  - destruct IH as [Hl Hp].
    destruct e as [key|dy|x|x| | | |time];
      try (match goal with
           | |- context [step st ?ev] =>
               assert (Hne : forall t, ev <> Frame t)
                 by (intros t; discriminate);
               destruct (step_window st ev Hne) as (-> & ->);
               split; assumption
           end).
    cbn [step].
    destruct (animate_window time st) as (cv & avg & -> & ->).
    split; [rewrite length_tl_snoc; exact Hl|].
    destruct (JS.ltb (peakVelocity st) avg) eqn:E; [|lra].
    apply ltb_true in E. lra.
Qed.

End VelocityWindow.

(** ** The carousel at rest *)

Section Rest.

Context {M : MathLib}.

Lemma fold_sum_zero (l : list Q) (a : Q) :
  Forall (fun v => v == 0) l ->
  fold_left (fun sum val => sum + val) l a == a.
Proof.
  intro H. revert a. induction H as [|x l Hx Hl IH]; intro a.
  - reflexivity.
  - cbn [fold_left]. rewrite IH. lra.
Qed.

Lemma Forall_tl_snoc (l : list Q) (x : Q) :
  Forall (fun v => v == 0) l -> x == 0 ->
  Forall (fun v => v == 0) (tl (l ++ [x])).
Proof.
  intros Hl Hx. destruct Hl as [|y l Hy Hl]; cbn [app tl].
  - constructor.
  - apply Forall_app. split; [exact Hl|]. constructor; [exact Hx|constructor].
Qed.

(** With no movement and an all-zero window the distortion integrator
    only decays the target, by one of its two rates. *)
Lemma distortionIntegrator_idle (dt pp : Q) (st : State) :
  currentPosition st == pp ->
  Forall (fun v => v == 0) (velocityHistory st) ->
  Forall (fun v => v == 0) (velocityHistory (distortionIntegrator dt pp st))
  /\ (targetDistortionFactor (distortionIntegrator dt pp st)
      == targetDistortionFactor st * 0.95
      \/ targetDistortionFactor (distortionIntegrator dt pp st)
         == targetDistortionFactor st * 0.855).
Proof.
  intros Hpos Hwin.
  unfold distortionIntegrator. cbv zeta.
  cbn [velocityHistory targetDistortionFactor].
  set (cv := JS.abs (currentPosition st - pp) / dt).
  assert (Hcv : cv == 0).
  { unfold cv, JS.abs, Qdiv.
    assert (H0 : Qabs (currentPosition st - pp) == 0).
    { assert (Hz : currentPosition st - pp == 0) by lra.
      rewrite Hz. reflexivity. }
    rewrite H0. ring. }
  pose proof (Forall_tl_snoc _ _ Hwin Hcv) as Hwin'.
  set (h' := tl (velocityHistory st ++ [cv])) in *.
  set (avg := fold_left (fun sum val => sum + val) h' 0
              / num (List.length h')).
  assert (Havg : avg == 0).
  { unfold avg, Qdiv. rewrite (fold_sum_zero h' 0 Hwin'). ring. }
  split; [exact Hwin'|].
  assert (E1 : JS.ltb 0.05 cv = false) by (apply ltb_false; lra).
  assert (E2 : JS.ltb avg 0.2 = true) by (apply ltb_true; lra).
  rewrite E1, E2, orb_true_r.
  change (distortionDecay settings) with 0.95.
  match goal with |- context [if ?b then 0.95 else _] => destruct b end.
  - left. reflexivity.
  - right. ring.
Qed.

Lemma animate_at_rest (time : Q) (st : State) :
  atRest st ->
  atRest (animate time st)
  /\ lastTime (animate time st) = time
  /\ targetPosition (animate time st) = targetPosition st
  /\ currentPosition (animate time st) == currentPosition st
  /\ autoScrollSpeed (animate time st) = autoScrollSpeed st
  /\ Qabs (targetDistortionFactor (animate time st))
     <= Qabs (targetDistortionFactor st) * 0.95.
Proof.
  intros (Hs & Hp & Hw).
  rewrite animate_phases.
  assert (Hidle : scrollIntegrator (stamped time st) = stamped time st)
    by (apply scrollIntegrator_idle; exact Hs).
  rewrite Hidle.
  set (dt := if Qeq_bool (lastTime st) 0 then 0.016
             else (time - lastTime st) / 1000).
  set (st1 := smoothPosition (smoothing settings) (stamped time st)).
  assert (Hc1 : currentPosition st1 == currentPosition st).
  { unfold st1, smoothPosition, stamped.
    cbn [currentPosition targetPosition set_currentPosition].
    change (smoothing settings) with 0.1. lra. }
  destruct (distortionIntegrator_idle dt (currentPosition st) st1 Hc1 Hw)
    as (Hw' & Hd).
  change (targetDistortionFactor st1) with (targetDistortionFactor st) in Hd.
  assert (Hfields :
    isScrolling (layoutSlides (distortionIntegrator dt (currentPosition st) st1))
      = isScrolling st
    /\ currentPosition
         (layoutSlides (distortionIntegrator dt (currentPosition st) st1))
       = currentPosition st1
    /\ targetPosition
         (layoutSlides (distortionIntegrator dt (currentPosition st) st1))
       = targetPosition st
    /\ velocityHistory
         (layoutSlides (distortionIntegrator dt (currentPosition st) st1))
       = velocityHistory (distortionIntegrator dt (currentPosition st) st1)
    /\ targetDistortionFactor
         (layoutSlides (distortionIntegrator dt (currentPosition st) st1))
       = targetDistortionFactor
           (distortionIntegrator dt (currentPosition st) st1)
    /\ lastTime
         (layoutSlides (distortionIntegrator dt (currentPosition st) st1))
       = time
    /\ autoScrollSpeed
         (layoutSlides (distortionIntegrator dt (currentPosition st) st1))
       = autoScrollSpeed st) by (repeat split).
  destruct Hfields as (F1 & F2 & F3 & F4 & F5 & F6 & F7).
  unfold atRest. rewrite F1, F2, F3, F4, F5, F6, F7.
  split; [split; [exact Hs|split; [lra|exact Hw']]|].
  split; [reflexivity|]. split; [reflexivity|]. split; [exact Hc1|].
  split; [reflexivity|].
  set (t' := targetDistortionFactor
               (distortionIntegrator dt (currentPosition st) st1)) in *.
  clearbody t'.
  pose proof (Qabs_nonneg (targetDistortionFactor st)) as H0.
  destruct Hd as [Hd|Hd]; rewrite Hd, Qabs_Qmult;
    [rewrite (Qabs_pos 0.95) by discriminate
    |rewrite (Qabs_pos 0.855) by discriminate];
    set (a := Qabs (targetDistortionFactor st)) in *; clearbody a; lra.
Qed.

(** X13.  Idle stability.  From a state at rest (not scrolling, position
    on target, velocity window all zero) a run of frames with distinct
    timestamps keeps the carousel at rest, moves neither position nor
    momentum, and shrinks the distortion target by at least 5 per cent
    per frame. *)
Theorem idle_frames_relax_distortion (st : State) (times : list Q) :
  atRest st ->
  ticking (lastTime st) times ->
  let st' := run st (map Frame times) in
  atRest st'
  /\ targetPosition st' = targetPosition st
  /\ currentPosition st' == currentPosition st
  /\ autoScrollSpeed st' = autoScrollSpeed st
  /\ Qabs (targetDistortionFactor st')
     <= Qabs (targetDistortionFactor st) * 0.95 ^ Z.of_nat (List.length times).
Proof.
  cbv zeta. revert st. induction times as [|t ts IH]; intros st Hr Ht.
  - cbn [map run fold_left List.length].
    split; [exact Hr|]. repeat split; try reflexivity.
    change (0.95 ^ Z.of_nat 0) with 1. lra.
  - destruct Ht as [_ Ht].
    destruct (animate_at_rest t st Hr) as (Hr1 & Hl1 & Ht1 & Hc1 & Ha1 & Hd1).
    rewrite <- Hl1 in Ht.
    destruct (IH _ Hr1 Ht) as (Hr2 & Ht2 & Hc2 & Ha2 & Hd2).
    cbn [map run fold_left step List.length].
    change (fold_left step (map Frame ts) (animate t st))
      with (run (animate t st) (map Frame ts)).
    split; [exact Hr2|]. split; [congruence|].
    split; [rewrite Hc2; exact Hc1|]. split; [congruence|].
    rewrite power_succ by discriminate.
    assert (Hp : 0 <= 0.95 ^ Z.of_nat (List.length ts))
      by (apply Qpower_pos; discriminate).
    set (p := 0.95 ^ Z.of_nat (List.length ts)) in *. clearbody p.
    set (a := Qabs (targetDistortionFactor
                      (run (animate t st) (map Frame ts)))) in *.
    set (b := Qabs (targetDistortionFactor (animate t st))) in *.
    set (c := Qabs (targetDistortionFactor st)) in *.
    clearbody a b c. nra.
Qed.

End Rest.

(** ** Further handler properties *)

Section MoreHandlers.





(** X16.  Aspect-ratio correction.  For an image of positive size the
    scaled plane has exactly the aspect ratio of the image, neither
    scale factor is below 1 (the plane always covers the nominal slide
    rectangle) and one of the two is exactly 1. *)
Theorem texture_scale_covers_slide (imageWidth imageHeight : Q) :
  0 < imageWidth -> 0 < imageHeight ->
  let sc := onTextureLoaded imageWidth imageHeight in
  (slideWidth * scale_x sc) / (slideHeight * scale_y sc)
  == imageWidth / imageHeight
  /\ 1 <= scale_x sc /\ 1 <= scale_y sc
  /\ (scale_x sc = 1 \/ scale_y sc = 1).
Proof.
  intros Hw Hh. cbv zeta. unfold onTextureLoaded. cbv zeta.
  assert (Ha : 0 < imageWidth / imageHeight).
  { apply Qlt_shift_div_l; lra. }
  assert (Hsa : slideWidth / slideHeight == 2) by reflexivity.
  destruct (JS.ltb (slideWidth / slideHeight) (imageWidth / imageHeight))
    eqn:E; cbn [scale_x scale_y].
  - apply ltb_true in E.
    assert (Hx : slideHeight * (imageWidth / imageHeight) / slideWidth
                 == (imageWidth / imageHeight) * (1 # 2)).
    { unfold slideHeight, slideWidth. field. lra. }
    split; [unfold slideHeight, slideWidth; field; lra|].
    split; [|split; [discriminate|right; reflexivity]].
    rewrite Hx. set (a := imageWidth / imageHeight) in *. clearbody a.
    set (sa := slideWidth / slideHeight) in *. clearbody sa. lra.
  - apply ltb_false in E.
    split; [unfold slideHeight, slideWidth; field; lra|].
    split; [discriminate|]. split; [|left; reflexivity].
    assert (Hy : slideWidth / (imageWidth / imageHeight) / slideHeight
                 == 2 / (imageWidth / imageHeight)).
    { unfold slideHeight, slideWidth. field. lra. }
    rewrite Hy. apply Qle_shift_div_l; [exact Ha|].
    set (a := imageWidth / imageHeight) in *. clearbody a.
    set (sa := slideWidth / slideHeight) in *. clearbody sa. lra.
Qed.

(** On array indices the remainder operator is the integer remainder. *)
Lemma rem_num (a b : nat) :
  (0 < b)%nat -> JS.rem (num a) (num b) == num (a mod b).
Proof.
  intro Hb. unfold JS.rem, JS.trunc, num.
  assert (Hb' : 0 < inject_Z (Z.of_nat b)).
  { change 0 with (inject_Z 0). rewrite <- Zlt_Qlt. lia. }
  assert (Ha' : 0 <= inject_Z (Z.of_nat a)).
  { change 0 with (inject_Z 0). rewrite <- Zle_Qle. lia. }
  assert (Hq : Qle_bool 0 (inject_Z (Z.of_nat a) / inject_Z (Z.of_nat b)) = true).
  { apply Qle_bool_iff. apply Qle_shift_div_l; [exact Hb'|lra]. }
  rewrite Hq, <- Zdiv_Qdiv, Nat2Z.inj_mod.
  rewrite (Z.mod_eq (Z.of_nat a) (Z.of_nat b)) by lia.
  unfold Z.sub. rewrite inject_Z_plus, inject_Z_opp, inject_Z_mult. ring.
Qed.

(** X17.  Image assignment.  The index computed for a slide is the
    integer [idx mod 5], so it always selects one of the five paths, and
    slides five apart show the same image. *)
Theorem image_index_cycles (idx : nat) :
  imageIndex idx == num (idx mod 5)
  /\ (exists path, nth_error imagePaths (idx mod 5) = Some path)
  /\ imageIndex (idx + 5) == imageIndex idx.
Proof.
  assert (H : forall i, imageIndex i == num (i mod 5)).
  { intro i. unfold imageIndex. apply (rem_num i 5). lia. }
  split; [apply H|]. split.
  - assert (Hlt : (idx mod 5 < List.length imagePaths)%nat).
    { cbn [List.length imagePaths]. apply Nat.mod_upper_bound. lia. }
    apply nth_error_Some in Hlt.
    destruct (nth_error imagePaths (idx mod 5)) as [p|]; [|contradiction].
    exists p. reflexivity.
  - rewrite (H (idx + 5)%nat), (H idx).
    replace (idx + 5)%nat with (idx + 1 * 5)%nat by lia.
    rewrite Nat.Div0.mod_add. reflexivity.
Qed.

End MoreHandlers.

(** ** The further properties at concrete inputs *)

Lemma frame_never_accelerates_momentum_witness :
  let M := rationalMath in
  let st := onWheel 100 initialState in
  isScrolling st = true
  /\ 0 <= autoScrollSpeed st
  /\ Qabs (autoScrollSpeed (animate 16 st)) <= Qabs (autoScrollSpeed st)
  /\ 0 <= autoScrollSpeed (animate 16 st)
  /\ Qabs (autoScrollSpeed (animate 16 st))
     <= 0.97 * Qabs (autoScrollSpeed st).
Proof.
  cbv zeta. set (st := onWheel 100 initialState).
  assert (Hs : isScrolling st = true) by reflexivity.
  assert (Hp : 0 <= autoScrollSpeed st) by (vm_compute; discriminate).
  destruct (frame_never_accelerates_momentum (M := rationalMath) 16 st)
    as (W1 & W2 & _ & W4).
  split; [exact Hs|]. split; [exact Hp|]. split; [exact W1|].
  split; [exact (W2 Hp)|exact (W4 Hs)].
Defined.

Lemma momentum_dies_out_witness :
  let M := rationalMath in
  let st := onWheel 4 initialState in
  let times := map num (seq 1 24) in
  isScrolling st = true
  /\ List.length times = 24%nat
  /\ Qabs (autoScrollSpeed st) * 0.97 ^ Z.of_nat 23 < 0.001
  /\ autoScrollSpeed (run st (map Frame times)) = 0.
Proof.
  cbv zeta. set (st := onWheel 4 initialState).
  assert (Hs : isScrolling st = true) by reflexivity.
  assert (Hl : List.length (map num (seq 1 24)) = 24%nat) by reflexivity.
  assert (Hd : Qabs (autoScrollSpeed st) * 0.97 ^ Z.of_nat 23 < 0.001)
    by (vm_compute; reflexivity).
  split; [exact Hs|]. split; [exact Hl|]. split; [exact Hd|].
  exact (momentum_dies_out (M := rationalMath) st _ 23 Hs Hl Hd).
Defined.


Lemma wheel_momentum_opposes_step_witness :
  let st' := onWheel 100 initialState in
  let moved := targetPosition st' - targetPosition initialState in
  ~ 100 == 0
  /\ autoScrollSpeed st' * moved < 0
  /\ Qabs (autoScrollSpeed st') <= 0.05
  /\ Qabs (autoScrollSpeed st') * 20 <= Qabs moved.
Proof.
  cbv zeta.
  assert (H : ~ 100 == 0) by discriminate.
  split; [exact H|].
  exact (wheel_momentum_opposes_step 100 initialState H).
Defined.


Lemma slides_stay_intact_witness :
  let M := rationalMath in
  let st := run initialState [Frame 0; Wheel 100; Frame 16] in
  reachable st
  /\ List.length (slides st) = slideCount
  /\ forall i s, nth_error (slides st) i = Some s ->
                 slideIntact i s /\ mesh_wf s.
Proof.
  cbv zeta.
  assert (H : reachable (M := rationalMath)
                (run (M := rationalMath) initialState
                   [Frame 0; Wheel 100; Frame 16])).
  { apply reachable_run. constructor. }
  split; [exact H|].
  exact (slides_stay_intact (M := rationalMath) _ H).
Defined.

Lemma distortion_never_exceeds_one_witness :
  let M := rationalMath in
  let st := run initialState
              [Frame 0; Keydown "ArrowLeft"; Keydown "ArrowLeft";
               Keydown "ArrowLeft"; Keydown "ArrowLeft"; Frame 16] in
  reachable st
  /\ targetDistortionFactor st <= 1 /\ currentDistortionFactor st <= 1.
Proof.
  cbv zeta.
  assert (H : reachable (M := rationalMath)
                (run (M := rationalMath) initialState
                   [Frame 0; Keydown "ArrowLeft"; Keydown "ArrowLeft";
                    Keydown "ArrowLeft"; Keydown "ArrowLeft"; Frame 16])).
  { apply reachable_run. constructor. }
  split; [exact H|].
  exact (distortion_never_exceeds_one (M := rationalMath) _ H).
Defined.

Lemma distortion_in_unit_without_touchmove_witness :
  let M := rationalMath in
  let es := [Frame 0; Wheel 100; Keydown "ArrowLeft"; Frame 16;
             Touchstart 0; Touchend; ScrollTimeout] in
  distortionInUnit initialState
  /\ Forall (fun e => forall x, e <> Touchmove x) es
  /\ distortionInUnit (run initialState es).
Proof.
  cbv zeta.
  assert (H0 : distortionInUnit initialState)
    by (repeat split; discriminate).
  assert (He : Forall (fun e => forall x, e <> Touchmove x)
                 [Frame 0; Wheel 100; Keydown "ArrowLeft"; Frame 16;
                  Touchstart 0; Touchend; ScrollTimeout])
    by (repeat constructor; discriminate).
  split; [exact H0|]. split; [exact He|].
  exact (distortion_in_unit_without_touchmove (M := rationalMath) _ _ H0 He).
Defined.

Lemma velocity_window_invariant_witness :
  let M := rationalMath in
  let st := run initialState [Frame 0; Wheel 100; Frame 16; Frame 32] in
  reachable st
  /\ List.length (velocityHistory st) = 5%nat
  /\ 0 <= peakVelocity st
  /\ forall avg,
       0 < (if JS.ltb (peakVelocity st) avg then avg else peakVelocity st)
           + 0.001.
Proof.
  cbv zeta.
  assert (H : reachable (M := rationalMath)
                (run (M := rationalMath) initialState
                   [Frame 0; Wheel 100; Frame 16; Frame 32])).
  { apply reachable_run. constructor. }
  split; [exact H|].
  exact (velocity_window_invariant (M := rationalMath) _ H).
Defined.

Lemma idle_frames_relax_distortion_witness :
  let M := rationalMath in
  let st := onScrollTimeout
              (onTouchmove 0 (onTouchmove 100 (onTouchstart 0 initialState))) in
  let times := [0; 16; 32] in
  let st' := run st (map Frame times) in
  atRest st
  /\ ticking (lastTime st) times
  /\ atRest st'
  /\ targetPosition st' = targetPosition st
  /\ currentPosition st' == currentPosition st
  /\ autoScrollSpeed st' = autoScrollSpeed st
  /\ Qabs (targetDistortionFactor st')
     <= Qabs (targetDistortionFactor st) * 0.95 ^ Z.of_nat (List.length times).
Proof.
  cbv zeta.
  set (st := onScrollTimeout
               (onTouchmove 0 (onTouchmove 100 (onTouchstart 0 initialState)))).
  assert (Hr : atRest st).
  { split; [reflexivity|]. split; [reflexivity|].
    repeat constructor. }
  assert (Ht : ticking (lastTime st) [0; 16; 32]).
  { cbn [ticking]. split; [left; reflexivity|].
    split; [left; reflexivity|]. split; [right; discriminate|exact I]. }
  split; [exact Hr|]. split; [exact Ht|].
  exact (idle_frames_relax_distortion (M := rationalMath) st [0; 16; 32] Hr Ht).
Defined.



Lemma texture_scale_covers_slide_witness :
  let sc := onTextureLoaded 1920 1080 in
  0 < 1920 /\ 0 < 1080
  /\ (slideWidth * scale_x sc) / (slideHeight * scale_y sc) == 1920 / 1080
  /\ 1 <= scale_x sc /\ 1 <= scale_y sc
  /\ (scale_x sc = 1 \/ scale_y sc = 1).
Proof.
  cbv zeta.
  assert (Hw : 0 < 1920) by reflexivity.
  assert (Hh : 0 < 1080) by reflexivity.
  split; [exact Hw|]. split; [exact Hh|].
  exact (texture_scale_covers_slide 1920 1080 Hw Hh).
Defined.

(** ** Slides on their way to the target *)

Section SlideLerp.

Context {M : MathLib}.


(** X19.  The first frame overrides the centring pass: whatever its
    timestamp, the frame that follows initialisation snaps every slide
    to the wrapped layout, [i * 3.1] for slides 0..5 and [i * 3.1 - 31]
    for slides 6..9, which is 15.5 away from where the centring pass
    had put it. *)
Theorem first_frame_snaps_every_slide (time : Q) (i : nat) :
  (i < slideCount)%nat ->
  exists s s',
    nth_error (slides initialState) i = Some s
    /\ nth_error (slides (animate time initialState)) i = Some s'
    /\ targetX s'
       == (if (i <=? 5)%nat then num i * 3.1 else num i * 3.1 - 31)
    /\ currentX s' == targetX s'
    /\ position_x s' = currentX s'
    /\ Qabs (currentX s' - currentX s) == 15.5.
Proof.
  intro Hi. unfold slideCount in Hi.
  exists (centreSlide i (createSlide i)).
  rewrite animate_slides, nth_error_mapi,
    (nth_error_initial_slides i Hi). cbn [option_map].
  eexists. split; [reflexivity|]. split; [reflexivity|].
  destruct (animate_scroll_fields time initialState) as (_ & _ & _ & Hc).
  rewrite Hc.
  set (cp := currentPosition initialState
             + (targetPosition (scrollIntegrator initialState)
                - currentPosition initialState) * smoothing settings).
  set (d := currentDistortionFactor (animate time initialState)).
  assert (Hjump : JS.ltb (slideWidth * 2)
                    (JS.abs (wrapBaseX i cp
                             - targetX (centreSlide i (createSlide i))))
                  = true
                  /\ wrapBaseX i cp
                     == (if (i <=? 5)%nat then num i * 3.1
                         else num i * 3.1 - 31)
                  /\ Qabs (wrapBaseX i cp
                           - currentX (centreSlide i (createSlide i)))
                     == 15.5).
  { do 10 (destruct i as [|i];
           [vm_compute; repeat split; reflexivity|]).
    exfalso. lia. }
  destruct Hjump as (Hj & Hv & Hd).
  assert (Hcur : currentX (updateSlide cp d i (centreSlide i (createSlide i)))
                 == wrapBaseX i cp).
  { rewrite updateSlide_currentX. cbv zeta. rewrite Hj. ring. }
  assert (Hwithin : Qabs (currentX (centreSlide i (createSlide i)))
                    <= totalWidth / 2).
  { pose proof initial_within as Hin. unfold withinHalfWidth in Hin.
    rewrite Forall_forall in Hin. apply Hin.
    eapply nth_error_In. apply (nth_error_initial_slides i Hi). }
  pose proof (updateSlide_within cp d i _ Hwithin) as Hc'.
  assert (Ht : JS.ltb (Qabs (currentX (updateSlide cp d i
                                         (centreSlide i (createSlide i)))))
                 ((totalWidth / 2 + slideWidth) * 1.5) = true).
  { apply ltb_true.
    pose proof halfWidth_val as Hh.
    set (h := totalWidth / 2) in *. clearbody h.
    unfold slideWidth. lra. }
  pose proof (updateSlide_visible cp d i _ Ht) as Hvis.
  rewrite updateSlide_targetX.
  split; [exact Hv|]. split; [exact Hcur|]. split.
  - rewrite Hvis at 1. reflexivity.
  - set (c' := currentX (updateSlide cp d i (centreSlide i (createSlide i))))
      in *. clearbody c'.
    set (c := currentX (centreSlide i (createSlide i))) in *.
    set (b := wrapBaseX i cp) in *. clearbody b c.
    assert (Hz : c' - c == b - c) by lra.
    rewrite Hz. exact Hd.
Qed.

End SlideLerp.


Lemma first_frame_snaps_every_slide_witness :
  let M := rationalMath in
  (7 < slideCount)%nat
  /\ exists s s',
       nth_error (slides initialState) 7 = Some s
       /\ nth_error (slides (animate 0 initialState)) 7 = Some s'
       /\ targetX s'
          == (if (7 <=? 5)%nat then num 7 * 3.1 else num 7 * 3.1 - 31)
       /\ currentX s' == targetX s'
       /\ position_x s' = currentX s'
       /\ Qabs (currentX s' - currentX s) == 15.5.
Proof.
  cbv zeta.
  assert (H : (7 < slideCount)%nat) by (unfold slideCount; lia).
  split; [exact H|].
  exact (first_frame_snaps_every_slide (M := rationalMath) 0 7 H).
Defined.
